(** * CPM.cu: dense linear projection, LM head and Marlin kernel instantiation

    A shallow embedding of [src/model/linear.cuh] (the [linear] helper, the
    [Linear] and [LMHead] modules) and of the Marlin template-instantiation
    macros that follow it, together with the properties stated for them.

    Conventions of the embedding:
    - [int], [int32_t], [int64_t] and [size_t] values are integers of [Z];
      the conversions and products the source performs are written out with
      their wrap-around;
    - a device pointer is a byte address of [Z]; an uninitialised pointer
      member of a struct is [None];
    - device memory maps the byte address of an element to the element;
    - work submitted to a [Stream] is appended to its queue, and the device
      runs a queue in FIFO order;
    - the element type [T] of the templates is a type with the interface
      [TypeTraits]; rounding of floating-point arithmetic is not modelled. *)

From Stdlib Require Import ZArith List String Ascii Bool Lia.
Import ListNotations.
Open Scope Z_scope.

(** ** Machine integers *)

Definition INT_MAX : Z := 2147483647.

(** Two's complement value of an [int] / [int32_t] computation. Signed
    overflow is undefined in C++; the wrap is what the hardware produces and
    every theorem below that depends on a product assumes that it fits. *)
Definition wrap_int (x : Z) : Z := (x + 2 ^ 31) mod 2 ^ 32 - 2 ^ 31.

(** Conversion to [size_t] (64-bit, unsigned). *)
Definition to_size_t (x : Z) : Z := x mod 2 ^ 64.

(** [a * b] on two [int]s. *)
Definition int_mul (a b : Z) : Z := wrap_int (a * b).

(** [a * s] with [a : int] and [s : size_t]: the usual arithmetic conversions
    turn [a] into a [size_t] first. *)
Definition size_mul (a s : Z) : Z := to_size_t (to_size_t a * s).

(** ** Outcomes of host code *)

Inductive cublasStatus_t : Type :=
| CUBLAS_STATUS_SUCCESS
| CUBLAS_STATUS_INVALID_VALUE.

Inductive exn : Type :=
| invalid_argument (what : string)
| cublas_failure (status : cublasStatus_t)
| OutOfDeviceMemory.

(** A host call returns, throws, or has undefined behaviour (a read of an
    uninitialised pointer member). *)
Inductive result (A : Type) : Type :=
| Ok (a : A)
| Throw (e : exn)
| Undefined.

Arguments Ok {A} a.
Arguments Throw {A} e.
Arguments Undefined {A}.

Definition bind {A B : Type} (r : result A) (k : A -> result B) : result B :=
  match r with
  | Ok a => k a
  | Throw e => Throw e
  | Undefined => Undefined
  end.

Notation "x <- r ;; k" := (bind r (fun x => k))
  (at level 61, r at next level, right associativity).

(** Reading a pointer member of a struct. *)
Definition read_ptr (p : option Z) : result Z :=
  match p with
  | Some a => Ok a
  | None => Undefined
  end.

Definition nullptr : Z := 0.

(** ** The element type *)

Inductive cudaDataType : Type :=
| CUDA_R_16F
| CUDA_R_16BF
| CUDA_R_32F.

(** What the templates use of their type parameter [T]: [sizeof(T)], the
    tag [TypeTraits<T>::cublas_type()], and its arithmetic. *)
Class TypeTraits (T : Type) : Type := {
  sizeof : Z;
  cublas_type : cudaDataType;
  zero : T;
  one : T;
  add : T -> T -> T;
  mul : T -> T -> T
}.

(** What the proofs rely on: a positive element size that fits 32 bits, *)
Class SizeLaws (T : Type) {TT : TypeTraits T} : Prop := {
  sizeof_pos : 0 < sizeof;
  sizeof_bound : sizeof < 2 ^ 32
}.

(** and, for the arithmetic of a GEMM with [alpha = 1] and [beta] 0 or 1, a
    commutative product with unit [one] and absorbing [zero], and a sum with
    neutral [zero]. *)
Class ArithLaws (T : Type) {TT : TypeTraits T} : Prop := {
  mul_comm : forall x y : T, mul x y = mul y x;
  mul_1_l : forall x : T, mul one x = x;
  mul_0_l : forall x : T, mul zero x = zero;
  add_0_r : forall x : T, add x zero = x
}.

(** ** Device memory *)

Section DeviceMemory.
Context {T : Type} {TT : TypeTraits T}.

Definition device_memory : Type := Z -> T.

(** Address of [p[i]] for [p : T*]. *)
Definition elem_addr (p i : Z) : Z := p + i * sizeof.

Definition load (m : device_memory) (p i : Z) : T := m (elem_addr p i).

(** [buf_index p n a] is [Some i] when [a] is the address of [p[i]] and
    [0 <= i < n]. *)
Definition buf_index (p n a : Z) : option Z :=
  let d := a - p in
  if (0 <=? d) && (d mod sizeof =? 0) && (d / sizeof <? n)
  then Some (d / sizeof) else None.

(** Overwrite [p[0..n)] with [f 0 .. f (n-1)]. *)
Definition store_buf (m : device_memory) (p n : Z) (f : Z -> T) : device_memory :=
  fun a => match buf_index p n a with
           | Some i => f i
           | None => m a
           end.

(** The byte ranges of [p[0..n)] and [q[0..k)] do not intersect. *)
Definition disjoint (p n q k : Z) : Prop :=
  p + n * sizeof <= q \/ q + k * sizeof <= p.

(** A host buffer, by element index. *)
Definition host_buffer : Type := Z -> T.

(** [cudaMemcpy(dst, src, count, cudaMemcpyHostToDevice)]: the CUDA runtime's
    synchronous copy of [count] bytes; the elements that lie whole inside the
    first [count] bytes of [dst] receive the host data. *)
Definition cudaMemcpy (m : device_memory) (dst : Z) (src : host_buffer) (count : Z)
  : device_memory :=
  store_buf m dst (count / sizeof) src.

End DeviceMemory.

(** ** Streams and the kernels enqueued on them *)

Inductive cublasOperation_t : Type :=
| CUBLAS_OP_N
| CUBLAS_OP_T.

Section Device.
Context {T : Type} {TT : TypeTraits T}.

(** A unit of device work, with the arguments of its launch. *)
Inductive Kernel : Type :=
| GemmEx (transa transb : cublasOperation_t) (m n k : Z) (alpha : T)
    (A : Z) (Atype : cudaDataType) (lda : Z)
    (B : Z) (Btype : cudaDataType) (ldb : Z)
    (beta : T) (C : Z) (Ctype : cudaDataType) (ldc : Z)
| BatchedAdd (num_tokens dim : Z) (a b c : Z)
| ElementwiseScale (num_tokens dim : Z) (input : Z) (scale : T) (output : Z).

(** A [Stream] is its queue of pending work, oldest first. The cuBLAS handle
    [stream.cublas_handle] is bound to the stream, so cuBLAS calls and kernel
    launches made with one [Stream] share one queue. *)
Definition Stream : Type := list Kernel.

(** [f 0 + f 1 + ... + f (k-1)], accumulated from the left. *)
Fixpoint sum_upto (k : nat) (f : Z -> T) : T :=
  match k with
  | O => zero
  | S k' => add (sum_upto k' f) (f (Z.of_nat k'))
  end.

Definition sum_below (k : Z) (f : Z -> T) : T := sum_upto (Z.to_nat k) f.

(** Element [(r, c)] of [op(A)] for a column-major [A] of leading dimension
    [lda]. *)
Definition op_elt (mem : device_memory) (trans : cublasOperation_t)
  (A lda r c : Z) : T :=
  match trans with
  | CUBLAS_OP_N => load mem A (r + c * lda)
  | CUBLAS_OP_T => load mem A (c + r * lda)
  end.

(** Element [(r, c)] of [alpha * op(A) * op(B) + beta * C]. *)
Definition gemm_elt (mem : device_memory) (transa transb : cublasOperation_t)
  (k : Z) (alpha : T) (A lda B ldb : Z) (beta : T) (C ldc : Z) (r c : Z) : T :=
  add (mul alpha (sum_below k (fun l =>
         mul (op_elt mem transa A lda r l) (op_elt mem transb B ldb l c))))
      (mul beta (load mem C (r + c * ldc))).

(** The GEMM of the vendor library, by its documented contract: [C] is a
    column-major [m x n] matrix of leading dimension [ldc], every element of
    which is replaced by the element of [alpha * op(A) * op(B) + beta * C];
    the operands are read before [C] is written. *)
Definition exec_gemm (mem : device_memory) (transa transb : cublasOperation_t)
  (m n k : Z) (alpha : T) (A lda B ldb : Z) (beta : T) (C ldc : Z)
  : device_memory :=
  fun a =>
    match buf_index C (ldc * n) a with
    | Some idx =>
        if idx mod ldc <? m
        then gemm_elt mem transa transb k alpha A lda B ldb beta C ldc
               (idx mod ldc) (idx / ldc)
        else mem a
    | None => mem a
    end.

(** Modelled from the spec: the kernel behind [batched_add] of
    [elementwise.cuh], which is not part of the sources at hand. "The bias
    vector is broadcast-added to every output row": with [a] and [c] of
    [num_tokens] rows of [dim] elements and [b] of [dim] elements,
    [c[i][j] = a[i][j] + b[j]]. *)
Definition exec_batched_add (mem : device_memory) (num_tokens dim a b c : Z)
  : device_memory :=
  store_buf mem c (num_tokens * dim)
    (fun idx => add (load mem a idx) (load mem b (idx mod dim))).

(** Modelled from the spec: the kernel behind [elementwise_scale] of
    [elementwise.cuh], which is not part of the sources at hand. It "rescales
    every element of the input activation by a fixed scalar factor" into the
    output buffer of [num_tokens x dim] elements. *)
Definition exec_elementwise_scale (mem : device_memory)
  (num_tokens dim input : Z) (scale : T) (output : Z) : device_memory :=
  store_buf mem output (num_tokens * dim)
    (fun idx => mul scale (load mem input idx)).

Definition exec (mem : device_memory) (kn : Kernel) : device_memory :=
  match kn with
  | GemmEx transa transb m n k alpha A _ lda B _ ldb beta C _ ldc =>
      exec_gemm mem transa transb m n k alpha A lda B ldb beta C ldc
  | BatchedAdd num_tokens dim a b c =>
      exec_batched_add mem num_tokens dim a b c
  | ElementwiseScale num_tokens dim input scale output =>
      exec_elementwise_scale mem num_tokens dim input scale output
  end.

(** The device drains a stream in FIFO order. *)
Definition run (stream : Stream) (mem : device_memory) : device_memory :=
  fold_left exec stream mem.

(** *** Host entry points *)

(** The parameter check of the BLAS interface: negative sizes and leading
    dimensions smaller than the stored operand are rejected. *)
Definition gemm_params_ok (transa transb : cublasOperation_t)
  (m n k lda ldb ldc : Z) : bool :=
  (0 <=? m) && (0 <=? n) && (0 <=? k)
  && (Z.max 1 (match transa with CUBLAS_OP_N => m | CUBLAS_OP_T => k end) <=? lda)
  && (Z.max 1 (match transb with CUBLAS_OP_N => k | CUBLAS_OP_T => n end) <=? ldb)
  && (Z.max 1 m <=? ldc).

(** [cublasGemmEx] with compute type [CUBLAS_COMPUTE_32F] and algorithm
    [CUBLAS_GEMM_DEFAULT]: checks its parameters and enqueues the GEMM on the
    stream of the handle. *)
Definition cublasGemmEx (stream : Stream) (transa transb : cublasOperation_t)
  (m n k : Z) (alpha : T) (A : Z) (Atype : cudaDataType) (lda : Z)
  (B : Z) (Btype : cudaDataType) (ldb : Z) (beta : T)
  (C : Z) (Ctype : cudaDataType) (ldc : Z) : cublasStatus_t * Stream :=
  if gemm_params_ok transa transb m n k lda ldb ldc
  then (CUBLAS_STATUS_SUCCESS,
        stream ++ [GemmEx transa transb m n k alpha A Atype lda B Btype ldb
                     beta C Ctype ldc])
  else (CUBLAS_STATUS_INVALID_VALUE, stream).

(** Modelled from the spec: the [cublasCheck] macro of [utils.cuh], which is
    not part of the sources at hand. A failing BLAS call is "surfaced
    synchronously to the caller as a fatal error". *)
Definition cublasCheck (r : cublasStatus_t * Stream) : result Stream :=
  match r with
  | (CUBLAS_STATUS_SUCCESS, stream) => Ok stream
  | (status, _) => Throw (cublas_failure status)
  end.

(** Modelled from the spec: the launcher [batched_add] of [elementwise.cuh]
    enqueues its kernel on the given stream. *)
Definition batched_add (stream : Stream) (num_tokens dim a b c : Z) : Stream :=
  stream ++ [BatchedAdd num_tokens dim a b c].

(** Modelled from the spec: the launcher [elementwise_scale] of
    [elementwise.cuh] enqueues its kernel on the given stream. *)
Definition elementwise_scale (stream : Stream) (num_tokens dim input : Z)
  (scale : T) (output : Z) : Stream :=
  stream ++ [ElementwiseScale num_tokens dim input scale output].

(** [linear<T>] (linear.cuh, lines 8-37). *)
Definition linear (stream : Stream) (num_tokens dim_in dim_out : Z)
  (input weight output : Z) (transposed inplace : bool) : result Stream :=
  let alpha := one in
  let beta := if inplace then one else zero in
  if transposed then
    cublasCheck (cublasGemmEx stream
      CUBLAS_OP_T CUBLAS_OP_N
      dim_out num_tokens dim_in
      alpha
      weight cublas_type dim_in
      input cublas_type dim_in
      beta
      output cublas_type dim_out)
  else
    cublasCheck (cublasGemmEx stream
      CUBLAS_OP_N CUBLAS_OP_N
      dim_out num_tokens dim_in
      alpha
      weight cublas_type dim_out
      input cublas_type dim_in
      beta
      output cublas_type dim_out).

End Device.

Arguments Kernel T : clear implicits.
Arguments Stream T : clear implicits.

(** ** The memory arena *)

(** Modelled from the spec: the [Memory] arena of [memory.cuh], which is not
    part of the sources at hand. It holds a model region that only grows, up
    to the capacity of its backing pool, and a scratch region addressed by
    byte offsets that the callers supply; offsets are rounded to
    [alignment]. *)
Record Memory : Type := {
  model_base : Z;
  model_offset : Z;
  model_capacity : Z;
  scratch_base : Z;
  alignment : Z
}.

(** The least multiple of [a] that is not below [x]. *)
Definition round_up (x a : Z) : Z := (x + a - 1) / a * a.

(** Modelled from the spec: [allocate_persistent(byte_size) -> address]
    "grows the model region; never reused; fails with OutOfDeviceMemory if
    the backing pool is exhausted". *)
Definition allocate_for_model (memory : Memory) (size : Z)
  : result (Z * Memory) :=
  if model_offset memory + size <=? model_capacity memory then
    Ok (model_base memory + model_offset memory,
        {| model_base := model_base memory;
           model_offset := model_offset memory + size;
           model_capacity := model_capacity memory;
           scratch_base := scratch_base memory;
           alignment := alignment memory |})
  else Throw OutOfDeviceMemory.

(** Modelled from the spec: [allocate_scratch(out_ptr_slot, current_offset,
    byte_size) -> next_offset] "computes next_offset = current_offset +
    byte_size (rounded to an alignment boundary), and binds out_ptr_slot to
    scratch_base + current_offset"; it is "purely an address-arithmetic
    operation". The pair returned is the pointer stored through the slot and
    the next offset; offsets are integers without a width. The check of the
    layout against the capacity of the pool, which the spec places at build
    time, is no part of this computation. *)
Definition allocate (memory : Memory) (offset size : Z) : Z * Z :=
  (scratch_base memory + offset, round_up (offset + size) (alignment memory)).

(** ** Strings *)

(** [s.find(pat)] of [std::string], searching from position 0: the position
    of the first occurrence of [pat] in [s]; [None] stands for
    [std::string::npos]. *)
Definition find (s pat : string) : option nat := String.index 0 pat s.

(** ** [struct Linear] (linear.cuh, lines 39-84) *)

Module Linear.

Record t (T : Type) : Type := {
  dim_in : Z;
  dim_out : Z;
  transposed : bool;
  has_bias : bool;
  output : option Z;
  weight : option Z;
  bias : option Z
}.

Arguments dim_in {T} _.
Arguments dim_out {T} _.
Arguments transposed {T} _.
Arguments has_bias {T} _.
Arguments output {T} _.
Arguments weight {T} _.
Arguments bias {T} _.

Section Methods.
Context {T : Type} {TT : TypeTraits T}.

(** The constructor; the pointer members are left uninitialised. *)
Definition new (dim_in dim_out : Z) (transposed has_bias : bool) : t T :=
  {| dim_in := dim_in; dim_out := dim_out;
     transposed := transposed; has_bias := has_bias;
     output := None; weight := None; bias := None |}.

Definition set_output (this : t T) (p : Z) : t T :=
  {| dim_in := dim_in this; dim_out := dim_out this;
     transposed := transposed this; has_bias := has_bias this;
     output := Some p; weight := weight this; bias := bias this |}.

Definition set_weight (this : t T) (p : Z) : t T :=
  {| dim_in := dim_in this; dim_out := dim_out this;
     transposed := transposed this; has_bias := has_bias this;
     output := output this; weight := Some p; bias := bias this |}.

Definition set_bias (this : t T) (p : Z) : t T :=
  {| dim_in := dim_in this; dim_out := dim_out this;
     transposed := transposed this; has_bias := has_bias this;
     output := output this; weight := weight this; bias := Some p |}.

Definition init_weight_ptr (this : t T) (memory : Memory)
  : result (t T * Memory) :=
  r <- allocate_for_model memory
         (size_mul (int_mul (dim_in this) (dim_out this)) (sizeof (T:=T))) ;;
  let this := set_weight this (fst r) in
  let memory := snd r in
  if has_bias this then
    r <- allocate_for_model memory (size_mul (dim_out this) (sizeof (T:=T))) ;;
    Ok (set_bias this (fst r), snd r)
  else Ok (this, memory).

Definition init_output_ptr (this : t T) (memory : Memory)
  (num_tokens offset : Z) : t T * Z :=
  let r := allocate memory offset
             (size_mul (int_mul num_tokens (dim_out this)) (sizeof (T:=T))) in
  (set_output this (fst r), snd r).

Definition load_to_storage (this : t T) (name : string) (ptr : host_buffer)
  (mem : device_memory) : result device_memory :=
  match find name "weight" with
  | Some _ =>
      w <- read_ptr (weight this) ;;
      Ok (cudaMemcpy mem w ptr
            (size_mul (int_mul (dim_in this) (dim_out this)) sizeof))
  | None =>
      match find name "bias" with
      | Some _ =>
          b <- read_ptr (bias this) ;;
          Ok (cudaMemcpy mem b ptr (size_mul (dim_out this) sizeof))
      | None => Throw (invalid_argument ("Unsupported name " ++ name)%string)
      end
  end.

Definition prefill (this : t T) (stream : Stream T) (num_tokens : Z)
  (input tgt : Z) (inplace : bool) : result (Stream T) :=
  tgt <- (if tgt =? nullptr then read_ptr (output this) else Ok tgt) ;;
  w <- read_ptr (weight this) ;;
  stream <- linear stream num_tokens (dim_in this) (dim_out this)
              input w tgt (transposed this) inplace ;;
  if has_bias this then
    b <- read_ptr (bias this) ;;
    Ok (batched_add stream num_tokens (dim_out this) tgt b tgt)
  else Ok stream.

End Methods.
End Linear.

(** ** [struct LMHead : Linear] (linear.cuh, lines 86-105) *)

Module LMHead.

Record t (T : Type) : Type := {
  base : Linear.t T;
  tmp_hidden_size : option Z;
  head_scale : T
}.

Arguments base {T} _.
Arguments tmp_hidden_size {T} _.
Arguments head_scale {T} _.

Section Methods.
Context {T : Type} {TT : TypeTraits T}.

Definition new (dim_in dim_out : Z) (head_scale : T)
  (transposed has_bias : bool) : t T :=
  {| base := Linear.new dim_in dim_out transposed has_bias;
     tmp_hidden_size := None;
     head_scale := head_scale |}.

Definition init_output_ptr (this : t T) (memory : Memory)
  (num_tokens offset : Z) : t T * Z :=
  let r := Linear.init_output_ptr (base this) memory num_tokens offset in
  let offset := snd r in
  let a := allocate memory offset
             (size_mul (int_mul num_tokens (Linear.dim_in (base this)))
                (sizeof (T:=T))) in
  let offset := snd a in
  ({| base := fst r;
      tmp_hidden_size := Some (fst a);
      head_scale := head_scale this |}, offset).

Definition prefill (this : t T) (stream : Stream T) (num_tokens : Z)
  (input tgt : Z) (inplace : bool) : result (Stream T) :=
  tmp <- read_ptr (tmp_hidden_size this) ;;
  let stream := elementwise_scale stream num_tokens
                  (Linear.dim_in (base this)) input (head_scale this) tmp in
  Linear.prefill (base this) stream num_tokens tmp tgt inplace.

End Methods.
End LMHead.

(** ** Explicit instantiation of the Marlin kernel (lines 105-144) *)

Module Marlin.

Inductive scalar_t : Type :=
| nv_bfloat16.

(** The scalar type ids [vllm::kU4.id()] and [vllm::kU8.id()]. *)
Inductive ScalarTypeId : Type :=
| kU4
| kU8.

(** One explicit instantiation [marlin::Marlin<...>]: the ten template
    arguments in order. The seven first are named after the macro parameters
    that supply them; the eighth and ninth are the literals [false] and
    [true]; the last is the group parameter. *)
Record Instantiation : Type := {
  dtype : scalar_t;
  qtype : ScalarTypeId;
  block_size : Z;
  split : Z;
  warp_m : Z;
  warp_n : Z;
  pack_size : Z;
  arg8 : bool;
  arg9 : bool;
  group : Z
}.

Definition Instantiation_eq_dec (x y : Instantiation) : {x = y} + {x <> y}.
Proof.
  decide equality;
    first [apply Z.eq_dec | apply bool_dec | decide equality].
Defined.

Definition MARLIN_INST_SPLIT (dtype : scalar_t) (qtype : ScalarTypeId)
  (block_size split warp_m warp_n pack_size : Z) : list Instantiation :=
  [ Build_Instantiation dtype qtype block_size split warp_m warp_n pack_size false true (-1);
    Build_Instantiation dtype qtype block_size split warp_m warp_n pack_size false true 2;
    Build_Instantiation dtype qtype block_size split warp_m warp_n pack_size false true 4;
    Build_Instantiation dtype qtype block_size split warp_m warp_n pack_size false true 8 ].

Definition MARLIN_INST_ALL_SPLITS (dtype : scalar_t) (qtype : ScalarTypeId)
  (block_size warp_m warp_n pack_size : Z) : list Instantiation :=
  MARLIN_INST_SPLIT dtype qtype block_size 1 warp_m warp_n pack_size
  ++ MARLIN_INST_SPLIT dtype qtype block_size 2 warp_m warp_n pack_size
  ++ MARLIN_INST_SPLIT dtype qtype block_size 3 warp_m warp_n pack_size
  ++ MARLIN_INST_SPLIT dtype qtype block_size 4 warp_m warp_n pack_size.

Definition MARLIN_INST_QTYPE (dtype : scalar_t)
  (block_size warp_m warp_n pack_size : Z) : list Instantiation :=
  MARLIN_INST_ALL_SPLITS dtype kU4 block_size warp_m warp_n pack_size
  ++ MARLIN_INST_ALL_SPLITS dtype kU8 block_size warp_m warp_n pack_size.

Definition MARLIN_INST_CONFIG (block_size warp_m warp_n pack_size : Z)
  : list Instantiation :=
  MARLIN_INST_QTYPE nv_bfloat16 block_size warp_m warp_n pack_size.

(** The instantiations the translation unit emits, given whether
    [ENABLE_DTYPE_BF16] is defined. *)
Definition instantiations (ENABLE_DTYPE_BF16 : bool) : list Instantiation :=
  if ENABLE_DTYPE_BF16 then
    MARLIN_INST_CONFIG 256 16 4 4
    ++ MARLIN_INST_CONFIG 256 8 8 4
    ++ MARLIN_INST_CONFIG 128 8 4 4
    ++ MARLIN_INST_CONFIG 128 4 8 4
  else [].

End Marlin.

(** ** Vocabulary of the properties *)

(** [pat] occurs in [s] as a substring. *)
Definition contains (s pat : string) : Prop :=
  exists pre post : string, s = (pre ++ pat ++ post)%string.

(** The layout plan of a sequence of scratch allocations: starting at
    [offset], one [allocate] call per size, each call fed the offset the
    previous one returned. The result lists the pointer bound and the offset
    returned by every call. *)
Fixpoint allocate_seq (memory : Memory) (offset : Z) (sizes : list Z)
  : list (Z * Z) :=
  match sizes with
  | [] => []
  | size :: rest =>
      let r := allocate memory offset size in
      r :: allocate_seq memory (snd r) rest
  end.

(** The parameter values of the quantized kernel family: block size with
    warp tiling, split factors, quantization types and group parameters. *)
Definition marlin_shapes : list (Z * (Z * Z)) :=
  [(256, (16, 4)); (256, (8, 8)); (128, (8, 4)); (128, (4, 8))].

Definition marlin_splits : list Z := [1; 2; 3; 4].

Definition marlin_qtypes : list Marlin.ScalarTypeId := [Marlin.kU4; Marlin.kU8].

Definition marlin_groups : list Z := [-1; 2; 4; 8].

(** [v] is a point of the cross product of these values. *)
Definition in_cross_product (v : Marlin.Instantiation) : Prop :=
  In (Marlin.block_size v, (Marlin.warp_m v, Marlin.warp_n v)) marlin_shapes
  /\ In (Marlin.split v) marlin_splits
  /\ In (Marlin.qtype v) marlin_qtypes
  /\ In (Marlin.group v) marlin_groups.

(** [v4] and [v8] are the 4-bit and the 8-bit variant of one configuration:
    they agree on every parameter other than the quantization type and the
    pack size. *)
Definition qtype_pair (v4 v8 : Marlin.Instantiation) : Prop :=
  Marlin.qtype v4 = Marlin.kU4 /\ Marlin.qtype v8 = Marlin.kU8
  /\ Marlin.dtype v4 = Marlin.dtype v8
  /\ Marlin.block_size v4 = Marlin.block_size v8
  /\ Marlin.split v4 = Marlin.split v8
  /\ Marlin.warp_m v4 = Marlin.warp_m v8
  /\ Marlin.warp_n v4 = Marlin.warp_n v8
  /\ Marlin.arg8 v4 = Marlin.arg8 v8
  /\ Marlin.arg9 v4 = Marlin.arg9 v8
  /\ Marlin.group v4 = Marlin.group v8.

(** [v] with the other quantization type. *)
Definition swap_qtype (v : Marlin.Instantiation) : Marlin.Instantiation :=
  Marlin.Build_Instantiation (Marlin.dtype v)
    (match Marlin.qtype v with
     | Marlin.kU4 => Marlin.kU8
     | Marlin.kU8 => Marlin.kU4
     end)
    (Marlin.block_size v) (Marlin.split v) (Marlin.warp_m v) (Marlin.warp_n v)
    (Marlin.pack_size v) (Marlin.arg8 v) (Marlin.arg9 v) (Marlin.group v).

(** The parameters that tell the instantiations of one configuration
    apart, packed into a number. *)
Definition variant_key (v : Marlin.Instantiation) : Z :=
  (match Marlin.qtype v with Marlin.kU4 => 0 | Marlin.kU8 => 1 end) * 10000
  + Marlin.split v * 100 + Marlin.group v.

Section Vocabulary.
Context {T : Type} {TT : TypeTraits T}.

(** The row-major matrix with [cols] columns stored at [p]. *)
Definition matrix_at (mem : device_memory) (p cols : Z) : Z -> Z -> T :=
  fun i j => load mem p (i * cols + j).

(** The vector stored at [p]. *)
Definition vector_at (mem : device_memory) (p : Z) : Z -> T :=
  fun j => load mem p j.

Definition transpose (A : Z -> Z -> T) : Z -> Z -> T := fun i j => A j i.

(** The product of [A] (with [k] columns) and [B] (with [k] rows). *)
Definition matmul (k : Z) (A B : Z -> Z -> T) : Z -> Z -> T :=
  fun i j => sum_below k (fun l => mul (A i l) (B l j)).

(** The product of a projection, in the words of its specification:
    [input x W^T] when [transposed], with [W] laid out [dim_out x dim_in],
    and [input x W] otherwise, with [W] laid out [dim_in x dim_out]; [input]
    has [dim_in] columns. *)
Definition projection (mem : device_memory) (dim_in dim_out input weight : Z)
  (transposed : bool) : Z -> Z -> T :=
  if transposed
  then matmul dim_in (matrix_at mem input dim_in)
         (transpose (matrix_at mem weight dim_in))
  else matmul dim_in (matrix_at mem input dim_in)
         (matrix_at mem weight dim_out).

(** The GEMM launch that [linear] puts on its stream. *)
Definition linear_gemm (num_tokens dim_in dim_out input weight output : Z)
  (transposed inplace : bool) : Kernel T :=
  GemmEx (if transposed then CUBLAS_OP_T else CUBLAS_OP_N) CUBLAS_OP_N
    dim_out num_tokens dim_in one
    weight cublas_type (if transposed then dim_in else dim_out)
    input cublas_type dim_in
    (if inplace then one else zero)
    output cublas_type dim_out.

(** A host buffer read as a row-major matrix with [cols] columns. *)
Definition host_matrix (h : host_buffer) (cols : Z) : Z -> Z -> T :=
  fun i j => h (i * cols + j).

(** [mem'] is [mem] after a copy of [src[0..n)] to [p[0..n)]: the [n]
    elements at [p] hold the source and no byte outside them has changed. *)
Definition copied_to (mem mem' : device_memory) (p n : Z) (src : host_buffer)
  : Prop :=
  (forall i, 0 <= i < n -> load mem' p i = src i)
  /\ (forall a, a < p \/ p + n * sizeof <= a -> mem' a = mem a).

End Vocabulary.

(** Integers with two-byte elements, used to evaluate the model on concrete
    inputs. *)
#[export] Instance Z_traits : TypeTraits Z := {|
  sizeof := 2;
  cublas_type := CUDA_R_16F;
  zero := 0;
  one := 1;
  add := Z.add;
  mul := Z.mul
|}.

#[export] Instance Z_size_laws : SizeLaws Z.
Proof.
  constructor; cbv [sizeof Z_traits]; lia.
Defined.

#[export] Instance Z_arith_laws : ArithLaws Z.
Proof.
  constructor; cbv [zero one add mul Z_traits]; intros; lia.
Defined.

(** ** Concrete inputs *)

(** An arena with a 64 KiB model pool and 256-byte alignment. *)
Definition ex_memory : Memory :=
  {| model_base := 4096; model_offset := 0; model_capacity := 65536;
     scratch_base := 1048576; alignment := 256 |}.

Definition ex_host : host_buffer (T:=Z) := fun i => i + 1.

(** Device memory with [1] in the two-byte cells at addresses 0 and 102 and
    [0] elsewhere: with an input at 0 and a 2 x 2 weight at 100, the input
    row is [1 0] and the weight is [[0 1] [0 0]]. *)
Definition ex_mem : device_memory (T:=Z) :=
  fun a => if a =? 0 then 1 else if a =? 102 then 1 else 0.

(** Device memory in which every two-byte cell holds its own index: the
    cell at address [a] holds [a / 2]. *)
Definition ex_ramp : device_memory (T:=Z) := fun a => a / 2.

(** A biased 3 x 2 projection in the default (transposed) layout. *)
Definition ex_linear : Linear.t Z :=
  {| Linear.dim_in := 2; Linear.dim_out := 3;
     Linear.transposed := true; Linear.has_bias := true;
     Linear.output := Some 300; Linear.weight := Some 100;
     Linear.bias := Some 200 |}.

(** A biased 2 x 2 projection whose weight is not transposed. *)
Definition ex_untransposed : Linear.t Z :=
  {| Linear.dim_in := 2; Linear.dim_out := 2;
     Linear.transposed := false; Linear.has_bias := true;
     Linear.output := Some 300; Linear.weight := Some 100;
     Linear.bias := Some 200 |}.

(** The 3 x 2 projection as [init_weight_ptr] leaves it in [ex_memory]. *)
Definition ex_initialised : Linear.t Z :=
  {| Linear.dim_in := 2; Linear.dim_out := 3;
     Linear.transposed := true; Linear.has_bias := true;
     Linear.output := None; Linear.weight := Some 4096;
     Linear.bias := Some 4108 |}.

Definition ex_head : LMHead.t Z :=
  {| LMHead.base := ex_linear;
     LMHead.tmp_hidden_size := Some 400;
     LMHead.head_scale := 3 |}.

(** The same head with the default scale. *)
Definition ex_head_unit : LMHead.t Z :=
  {| LMHead.base := ex_linear;
     LMHead.tmp_hidden_size := Some 400;
     LMHead.head_scale := 1 |}.

(** The 4-bit and the 8-bit instantiation of the first configuration. *)
Definition ex_inst_u4 : Marlin.Instantiation :=
  Marlin.Build_Instantiation Marlin.nv_bfloat16 Marlin.kU4 256 1 16 4 4
    false true (-1).

Definition ex_inst_u8 : Marlin.Instantiation :=
  Marlin.Build_Instantiation Marlin.nv_bfloat16 Marlin.kU8 256 1 16 4 4
    false true (-1).

(** Arithmetic side conditions on concrete values. *)
Ltac arith := unfold INT_MAX; cbn; lia.

(** * Properties *)

(** ** Machine integers *)

Lemma wrap_int_small (x : Z) :
  - 2 ^ 31 <= x <= INT_MAX -> wrap_int x = x.
Proof.
  unfold wrap_int, INT_MAX. intros H.
  rewrite Z.mod_small; lia.
Qed.

Lemma int_mul_exact (a b : Z) :
  0 <= a * b <= INT_MAX -> int_mul a b = a * b.
Proof.
  intros H. unfold int_mul. apply wrap_int_small.
  unfold INT_MAX in *. lia.
Qed.

Lemma size_mul_exact (a s : Z) :
  0 <= a <= INT_MAX -> 0 < s < 2 ^ 32 -> size_mul a s = a * s.
Proof.
  unfold size_mul, to_size_t, INT_MAX. intros Ha Hs.
  rewrite (Z.mod_small a) by lia.
  apply Z.mod_small. nia.
Qed.


(** The byte count [a * b * sizeof(T)] of the source, when [a * b] fits. *)
Lemma bytes_exact {T : Type} {TT : TypeTraits T} {TS : SizeLaws T} (a b : Z) :
  0 <= a * b <= INT_MAX ->
  size_mul (int_mul a b) (sizeof (T:=T)) = a * b * sizeof (T:=T).
Proof.
  intros H. rewrite int_mul_exact by assumption.
  apply size_mul_exact; [assumption|].
  split; [apply sizeof_pos | apply sizeof_bound].
Qed.

Lemma round_up_ge (x a : Z) : 0 < a -> x <= round_up x a.
Proof.
  intros Ha. unfold round_up.
  pose proof (Z.mod_pos_bound (x + a - 1) a Ha).
  pose proof (Z.div_mod (x + a - 1) a). lia.
Qed.

Lemma round_up_lt (x a : Z) : 0 < a -> round_up x a < x + a.
Proof.
  intros Ha. unfold round_up.
  pose proof (Z.mod_pos_bound (x + a - 1) a Ha).
  pose proof (Z.div_mod (x + a - 1) a). lia.
Qed.

Lemma round_up_aligned (x a : Z) : 0 < a -> round_up x a mod a = 0.
Proof.
  intros Ha. unfold round_up. apply Z.mod_mul. lia.
Qed.

(** ** Device memory *)

Section MemoryFacts.
Context {T : Type} {TT : TypeTraits T} {TS : SizeLaws T}.

Lemma buf_index_elem (p n i : Z) :
  0 <= i < n -> buf_index (T:=T) p n (elem_addr p i) = Some i.
Proof.
  intros Hi. unfold buf_index, elem_addr.
  pose proof (sizeof_pos (T:=T)) as Hs.
  replace (p + i * sizeof - p) with (i * sizeof) by lia.
  rewrite Z.mod_mul, Z.div_mul by lia.
  replace (0 <=? i * sizeof) with true by (symmetry; apply Z.leb_le; nia).
  replace (i <? n) with true by (symmetry; apply Z.ltb_lt; lia).
  reflexivity.
Qed.

Lemma buf_index_Some (p n a i : Z) :
  buf_index (T:=T) p n a = Some i -> a = elem_addr p i /\ 0 <= i < n.
Proof.
  unfold buf_index, elem_addr.
  pose proof (sizeof_pos (T:=T)) as Hs.
  destruct (0 <=? a - p) eqn:H0; simpl; [|discriminate].
  destruct (Z.eqb_spec ((a - p) mod sizeof) 0) as [Hm|]; simpl; [|discriminate].
  destruct (Z.ltb_spec ((a - p) / sizeof) n) as [Hn|]; [|discriminate].
  intros [= <-]. apply Z.leb_le in H0.
  pose proof (Z.div_mod (a - p) sizeof).
  pose proof (Z.div_pos (a - p) sizeof).
  split; [lia|]. split; [lia | assumption].
Qed.

Lemma buf_index_outside (p n a : Z) :
  a < p \/ p + n * sizeof (T:=T) <= a -> buf_index (T:=T) p n a = None.
Proof.
  intros Ha. destruct (buf_index p n a) as [i|] eqn:E; [|reflexivity].
  apply buf_index_Some in E. unfold elem_addr in E.
  pose proof (sizeof_pos (T:=T)). nia.
Qed.

Lemma load_store_buf (mem : device_memory) (p n : Z) (f : Z -> T) (i : Z) :
  0 <= i < n -> load (store_buf mem p n f) p i = f i.
Proof.
  intros Hi. unfold load, store_buf. now rewrite buf_index_elem.
Qed.

Lemma store_buf_outside (mem : device_memory) (p n : Z) (f : Z -> T) (a : Z) :
  a < p \/ p + n * sizeof (T:=T) <= a -> store_buf mem p n f a = mem a.
Proof.
  intros Ha. unfold store_buf. now rewrite buf_index_outside.
Qed.

Lemma elem_addr_outside (p n q k j : Z) :
  disjoint (T:=T) p n q k -> 0 <= j < k ->
  elem_addr (T:=T) q j < p \/ p + n * sizeof (T:=T) <= elem_addr (T:=T) q j.
Proof.
  unfold disjoint, elem_addr. intros D Hj.
  pose proof (sizeof_pos (T:=T)). nia.
Qed.

Lemma load_store_buf_disjoint (mem : device_memory) (p n : Z) (f : Z -> T)
  (q k j : Z) :
  disjoint (T:=T) p n q k -> 0 <= j < k ->
  load (store_buf mem p n f) q j = load mem q j.
Proof.
  intros D Hj. unfold load. apply store_buf_outside.
  now apply elem_addr_outside with (k := k).
Qed.

Lemma store_buf_copied (mem : device_memory) (p n : Z) (src : host_buffer) :
  copied_to mem (store_buf mem p n src) p n src.
Proof.
  split.
  - intros i Hi. now apply load_store_buf.
  - intros a Ha. now apply store_buf_outside.
Qed.

Lemma cudaMemcpy_copied (mem : device_memory) (dst n : Z) (src : host_buffer) :
  copied_to mem (cudaMemcpy mem dst src (n * sizeof)) dst n src.
Proof.
  unfold cudaMemcpy. pose proof (sizeof_pos (T:=T)).
  rewrite Z.div_mul by lia. apply store_buf_copied.
Qed.

End MemoryFacts.

(** ** Substring search *)

Lemma prefix_append (pat post : string) :
  String.prefix pat (pat ++ post)%string = true.
Proof.
  induction pat as [|c pat IH]; simpl.
  - now destruct post.
  - destruct (ascii_dec c c) as [_|N]; [exact IH | now elim N].
Qed.

Lemma prefix_true_append (pat s : string) :
  String.prefix pat s = true -> exists post, s = (pat ++ post)%string.
Proof.
  revert s. induction pat as [|c pat IH]; intros s H.
  - now exists s.
  - destruct s as [|d s]; simpl in H; [discriminate|].
    destruct (ascii_dec c d) as [->|]; [|discriminate].
    destruct (IH s H) as [post ->]. now exists post.
Qed.

Lemma find_Some_contains (s pat : string) (m : nat) :
  find s pat = Some m -> contains s pat.
Proof.
  unfold find. revert m. induction s as [|c s IH]; intros m H.
  - destruct pat; simpl in H; [|discriminate].
    now exists EmptyString, EmptyString.
  - cbn [String.index] in H.
    destruct (String.prefix pat (String c s)) eqn:P.
    + destruct (prefix_true_append _ _ P) as [post E].
      exists EmptyString, post. exact E.
    + destruct (String.index 0 pat s) as [k|] eqn:E; [|discriminate].
      destruct (IH k eq_refl) as (pre & post & ->).
      now exists (String c pre), post.
Qed.

Lemma contains_find_Some (s pat : string) :
  contains s pat -> exists m, find s pat = Some m.
Proof.
  intros (pre & post & ->). unfold find.
  induction pre as [|c pre IH].
  - change (EmptyString ++ pat ++ post)%string with (pat ++ post)%string.
    destruct (pat ++ post)%string as [|d r] eqn:E.
    + destruct pat; [now exists 0%nat | discriminate].
    + cbn [String.index]. rewrite <- E, prefix_append. now exists 0%nat.
  - change (String c pre ++ pat ++ post)%string
      with (String c (pre ++ pat ++ post)%string).
    cbn [String.index].
    destruct (String.prefix pat (String c (pre ++ pat ++ post))).
    + now exists 0%nat.
    + destruct IH as [m ->]. now exists (S m).
Qed.

(** [name.find(pat) != npos] says that [pat] occurs in [name]. *)
Lemma find_npos_iff (s pat : string) :
  find s pat = None <-> ~ contains s pat.
Proof.
  split.
  - intros H C. destruct (contains_find_Some _ _ C) as [m E]. congruence.
  - intros H. destruct (find s pat) as [m|] eqn:E; [|reflexivity].
    elim H. now apply find_Some_contains with m.
Qed.

(** ** Weight loading *)

Section LoadToStorage.
Context {T : Type} {TT : TypeTraits T} {TS : SizeLaws T}.

Lemma load_to_storage_weight_branch (this : Linear.t T) (name : string)
  (ptr : host_buffer) (mem : device_memory) :
  contains name "weight" ->
  Linear.load_to_storage this name ptr mem =
  (w <- read_ptr (Linear.weight this) ;;
   Ok (cudaMemcpy mem w ptr
         (size_mul (int_mul (Linear.dim_in this) (Linear.dim_out this)) sizeof))).
Proof.
  intros C. unfold Linear.load_to_storage.
  destruct (contains_find_Some _ _ C) as [m ->]. reflexivity.
Qed.

Lemma load_to_storage_bias_branch (this : Linear.t T) (name : string)
  (ptr : host_buffer) (mem : device_memory) :
  ~ contains name "weight" -> contains name "bias" ->
  Linear.load_to_storage this name ptr mem =
  (b <- read_ptr (Linear.bias this) ;;
   Ok (cudaMemcpy mem b ptr (size_mul (Linear.dim_out this) sizeof))).
Proof.
  intros NW C. unfold Linear.load_to_storage.
  apply find_npos_iff in NW. rewrite NW.
  destruct (contains_find_Some _ _ C) as [m ->]. reflexivity.
Qed.

Lemma load_to_storage_other_branch (this : Linear.t T) (name : string)
  (ptr : host_buffer) (mem : device_memory) :
  ~ contains name "weight" -> ~ contains name "bias" ->
  Linear.load_to_storage this name ptr mem =
  Throw (invalid_argument ("Unsupported name " ++ name)%string).
Proof.
  intros NW NB. unfold Linear.load_to_storage.
  apply find_npos_iff in NW. apply find_npos_iff in NB.
  now rewrite NW, NB.
Qed.

Lemma weight_copy_copied (this : Linear.t T) (ptr : host_buffer)
  (mem : device_memory) (w : Z) :
  0 <= Linear.dim_in this * Linear.dim_out this <= INT_MAX ->
  copied_to mem
    (cudaMemcpy mem w ptr
       (size_mul (int_mul (Linear.dim_in this) (Linear.dim_out this)) sizeof))
    w (Linear.dim_in this * Linear.dim_out this) ptr.
Proof.
  intros H. rewrite bytes_exact by assumption. apply cudaMemcpy_copied.
Qed.

Lemma bias_copy_copied (this : Linear.t T) (ptr : host_buffer)
  (mem : device_memory) (b : Z) :
  0 <= Linear.dim_out this <= INT_MAX ->
  copied_to mem
    (cudaMemcpy mem b ptr (size_mul (Linear.dim_out this) sizeof))
    b (Linear.dim_out this) ptr.
Proof.
  intros H. rewrite size_mul_exact; [apply cudaMemcpy_copied | assumption |].
  split; [apply sizeof_pos | apply sizeof_bound].
Qed.

(** C2. [load_to_storage] dispatches on the name. A name that contains
    "weight" has the host buffer copied to the weight storage, [dim_in *
    dim_out] elements; otherwise a name that contains "bias" has it copied to
    the bias storage, [dim_out] elements; a name that contains neither makes
    the call throw [invalid_argument] at once, and no device memory results
    from the call: nothing is copied. *)
Theorem load_to_storage_by_name (this : Linear.t T) (name : string)
  (ptr : host_buffer) (mem : device_memory) :
  0 <= Linear.dim_in this * Linear.dim_out this <= INT_MAX ->
  0 <= Linear.dim_out this <= INT_MAX ->
  (contains name "weight" ->
   forall w, Linear.weight this = Some w ->
   exists mem',
     Linear.load_to_storage this name ptr mem = Ok mem'
     /\ copied_to mem mem' w (Linear.dim_in this * Linear.dim_out this) ptr)
  /\ (~ contains name "weight" -> contains name "bias" ->
      forall b, Linear.bias this = Some b ->
      exists mem',
        Linear.load_to_storage this name ptr mem = Ok mem'
        /\ copied_to mem mem' b (Linear.dim_out this) ptr)
  /\ (~ contains name "weight" -> ~ contains name "bias" ->
      Linear.load_to_storage this name ptr mem =
      Throw (invalid_argument ("Unsupported name " ++ name)%string)).
Proof.
  intros Hw Hb. repeat split.
  - intros C w E. eexists. split.
    + rewrite load_to_storage_weight_branch, E by assumption. reflexivity.
    + now apply weight_copy_copied.
  - intros NW C b E. eexists. split.
    + rewrite load_to_storage_bias_branch, E by assumption. reflexivity.
    + now apply bias_copy_copied.
  - intros NW NB. now apply load_to_storage_other_branch.
Qed.

(** C9. A name that contains both "weight" and "bias" is routed to the
    weight storage, because the "weight" test comes first: [dim_in * dim_out]
    elements are copied there, and the bias storage, a buffer apart from the
    weight storage, keeps its contents. *)
Theorem load_to_storage_weight_first (this : Linear.t T) (name : string)
  (ptr : host_buffer) (mem : device_memory) (w : Z) :
  0 <= Linear.dim_in this * Linear.dim_out this <= INT_MAX ->
  Linear.weight this = Some w ->
  contains name "weight" -> contains name "bias" ->
  exists mem',
    Linear.load_to_storage this name ptr mem = Ok mem'
    /\ copied_to mem mem' w (Linear.dim_in this * Linear.dim_out this) ptr
    /\ forall b, Linear.bias this = Some b ->
       disjoint (T:=T) w (Linear.dim_in this * Linear.dim_out this)
         b (Linear.dim_out this) ->
       forall j, 0 <= j < Linear.dim_out this ->
       vector_at mem' b j = vector_at mem b j.
Proof.
  intros Hw E CW _. eexists. split; [|split].
  - rewrite load_to_storage_weight_branch, E by assumption. reflexivity.
  - now apply weight_copy_copied.
  - intros b _ D j Hj. unfold vector_at, load.
    apply (weight_copy_copied this ptr mem w Hw).
    now apply elem_addr_outside with (k := Linear.dim_out this).
Qed.

End LoadToStorage.

(** ** Weight initialisation *)

Section InitWeightPtr.
Context {T : Type} {TT : TypeTraits T} {TS : SizeLaws T}.

Lemma allocate_for_model_Ok (memory memory' : Memory) (size p : Z) :
  allocate_for_model memory size = Ok (p, memory') ->
  p = model_base memory + model_offset memory
  /\ model_offset memory + size <= model_capacity memory
  /\ model_base memory' = model_base memory
  /\ model_offset memory' = model_offset memory + size
  /\ model_capacity memory' = model_capacity memory.
Proof.
  unfold allocate_for_model.
  destruct (Z.leb_spec (model_offset memory + size) (model_capacity memory));
    [|discriminate].
  intros [= <- <-]. cbn. lia.
Qed.

(** What a successful [init_weight_ptr] leaves behind: the weight buffer at
    the old end of the model region, the bias buffer right after it when
    [has_bias] holds, and an untouched [bias] member otherwise. *)
Lemma init_weight_ptr_Ok (this this' : Linear.t T) (memory memory' : Memory) :
  Linear.init_weight_ptr this memory = Ok (this', memory') ->
  let wsize :=
    size_mul (int_mul (Linear.dim_in this) (Linear.dim_out this)) (sizeof (T:=T)) in
  let bsize := size_mul (Linear.dim_out this) (sizeof (T:=T)) in
  Linear.dim_in this' = Linear.dim_in this
  /\ Linear.dim_out this' = Linear.dim_out this
  /\ Linear.has_bias this' = Linear.has_bias this
  /\ Linear.weight this' = Some (model_base memory + model_offset memory)
  /\ (if Linear.has_bias this then
        Linear.bias this' = Some (model_base memory + model_offset memory + wsize)
        /\ model_offset memory' = model_offset memory + wsize + bsize
        /\ model_offset memory' <= model_capacity memory
      else
        Linear.bias this' = Linear.bias this
        /\ model_offset memory' = model_offset memory + wsize
        /\ model_offset memory' <= model_capacity memory).
Proof.
  unfold Linear.init_weight_ptr. cbn zeta.
  destruct (allocate_for_model memory _) as [[w m1]| |] eqn:E1;
    cbn [bind fst snd]; try discriminate.
  apply allocate_for_model_Ok in E1. destruct E1 as (-> & L1 & B1 & O1 & C1).
  cbn [Linear.has_bias Linear.set_weight].
  destruct (Linear.has_bias this) eqn:HB.
  - cbn [Linear.dim_out].
    destruct (allocate_for_model m1 _) as [[b m2]| |] eqn:E2;
      cbn [bind fst snd]; try discriminate.
    apply allocate_for_model_Ok in E2. destruct E2 as (-> & L2 & B2 & O2 & C2).
    intros [= <- <-]. cbn in *.
    repeat split; try reflexivity; try assumption; try lia.
    f_equal. lia.
  - intros [= <- <-]. cbn.
    repeat split; try reflexivity; try assumption; lia.
Qed.

(** After [init_weight_ptr] the weight and bias buffers do not overlap. *)
Lemma init_weight_ptr_disjoint (this this' : Linear.t T)
  (memory memory' : Memory) (w b : Z) :
  0 <= Linear.dim_in this * Linear.dim_out this <= INT_MAX ->
  Linear.init_weight_ptr this memory = Ok (this', memory') ->
  Linear.has_bias this = true ->
  Linear.weight this' = Some w -> Linear.bias this' = Some b ->
  disjoint (T:=T) w (Linear.dim_in this' * Linear.dim_out this')
    b (Linear.dim_out this').
Proof.
  intros Hd E HB Ew Eb. apply init_weight_ptr_Ok in E. cbn zeta in E.
  destruct E as (-> & -> & _ & Ew' & R). rewrite HB in R.
  destruct R as (Eb' & _). rewrite bytes_exact in Eb' by assumption.
  rewrite Ew in Ew'. rewrite Eb in Eb'.
  injection Ew' as ->. injection Eb' as ->.
  left. lia.
Qed.

(** After [init_weight_ptr], a load under a name with "weight" in it leaves
    the bias buffer as it was. *)
Lemma load_weight_keeps_bias (this this' : Linear.t T)
  (memory memory' : Memory) (name : string) (ptr : host_buffer)
  (mem : device_memory) (b : Z) :
  0 <= Linear.dim_in this * Linear.dim_out this <= INT_MAX ->
  Linear.init_weight_ptr this memory = Ok (this', memory') ->
  Linear.has_bias this = true -> Linear.bias this' = Some b ->
  contains name "weight" ->
  exists mem',
    Linear.load_to_storage this' name ptr mem = Ok mem'
    /\ forall j, 0 <= j < Linear.dim_out this' ->
       vector_at mem' b j = vector_at mem b j.
Proof.
  intros Hd E HB Eb C.
  pose proof (init_weight_ptr_Ok _ _ _ _ E) as I. cbn zeta in I.
  destruct I as (Ei & Eo & _ & Ew & _).
  pose proof (init_weight_ptr_disjoint _ _ _ _ _ b Hd E HB Ew Eb) as D.
  assert (Hd' : 0 <= Linear.dim_in this' * Linear.dim_out this' <= INT_MAX)
    by now rewrite Ei, Eo.
  eexists. split.
  - rewrite load_to_storage_weight_branch, Ew by assumption. reflexivity.
  - intros j Hj. unfold vector_at, load.
    apply (weight_copy_copied this' ptr mem _ Hd').
    now apply elem_addr_outside with (k := Linear.dim_out this').
Qed.

(** C10. A load under a "bias" name is safe exactly when the projection was
    constructed with [has_bias]. After [init_weight_ptr] on a freshly
    constructed projection, the [bias] member is bound if and only if
    [has_bias] holds. When it holds, the member points to [dim_out] elements
    reserved in the model region and the load copies the host buffer there;
    when it does not, the "bias" branch still goes through the member, which
    was never initialised: the behaviour is undefined. *)
Theorem bias_load_safe_iff_has_bias (dim_in dim_out : Z)
  (transposed has_bias : bool) (memory memory' : Memory) (this : Linear.t T)
  (name : string) (ptr : host_buffer) (mem : device_memory) :
  0 <= dim_in * dim_out <= INT_MAX ->
  0 <= dim_out <= INT_MAX ->
  Linear.init_weight_ptr (Linear.new dim_in dim_out transposed has_bias) memory
  = Ok (this, memory') ->
  ~ contains name "weight" -> contains name "bias" ->
  (Linear.bias this <> None <-> has_bias = true)
  /\ (has_bias = true ->
      exists b mem',
        Linear.bias this = Some b
        /\ model_base memory + model_offset memory <= b
        /\ b + dim_out * sizeof (T:=T) = model_base memory + model_offset memory'
        /\ model_offset memory' <= model_capacity memory
        /\ Linear.load_to_storage this name ptr mem = Ok mem'
        /\ copied_to mem mem' b dim_out ptr)
  /\ (has_bias = false ->
      Linear.load_to_storage this name ptr mem = Undefined).
Proof.
  intros Hw Hb E NW CB.
  apply init_weight_ptr_Ok in E. cbn in E.
  destruct E as (Ei & Eo & Eh & Ew & R).
  pose proof (sizeof_pos (T:=T)) as Hs.
  pose proof (sizeof_bound (T:=T)) as Hs'.
  rewrite bytes_exact in R by assumption.
  rewrite size_mul_exact in R by (assumption || (split; assumption)).
  destruct has_bias.
  - destruct R as (Eb & Em & Ec). split; [|split].
    + rewrite Eb. split; [reflexivity | discriminate].
    + intros _. eexists. eexists. split; [exact Eb|].
      split; [nia|]. split; [lia|]. split; [lia|]. split.
      * rewrite load_to_storage_bias_branch, Eb by assumption. reflexivity.
      * rewrite <- Eo. apply bias_copy_copied. now rewrite Eo.
    + discriminate.
  - destruct R as (Eb & _). split; [|split].
    + rewrite Eb. split; [intros N; now elim N | discriminate].
    + discriminate.
    + intros _. rewrite load_to_storage_bias_branch, Eb by assumption.
      reflexivity.
Qed.

End InitWeightPtr.

(** ** Scratch allocation *)

Lemma allocate_seq_depends (m1 m2 : Memory) (offset : Z) (sizes : list Z) :
  scratch_base m1 = scratch_base m2 -> alignment m1 = alignment m2 ->
  allocate_seq m1 offset sizes = allocate_seq m2 offset sizes.
Proof.
  intros Hb Ha. revert offset.
  induction sizes as [|size rest IH]; intros offset; [reflexivity|].
  cbn [allocate_seq]. unfold allocate. cbn [fst snd].
  now rewrite Hb, Ha, IH.
Qed.

Lemma allocate_seq_offsets_depend (m1 m2 : Memory) (offset : Z)
  (sizes : list Z) :
  alignment m1 = alignment m2 ->
  map snd (allocate_seq m1 offset sizes) = map snd (allocate_seq m2 offset sizes).
Proof.
  intros Ha. revert offset.
  induction sizes as [|size rest IH]; intros offset; [reflexivity|].
  cbn [allocate_seq map]. unfold allocate. cbn [fst snd].
  now rewrite Ha, IH.
Qed.

Lemma allocate_seq_lower (memory : Memory) (sizes : list Z) :
  0 < alignment memory -> Forall (fun s => 0 <= s) sizes ->
  forall (offset : Z) (j : nat) (r : Z * Z),
  nth_error (allocate_seq memory offset sizes) j = Some r ->
  scratch_base memory + offset <= fst r.
Proof.
  intros Ha Hs. induction Hs as [|size rest Hsize _ IH]; intros offset j r E.
  - destruct j; discriminate.
  - destruct j as [|j]; cbn in E.
    + injection E as <-. cbn. lia.
    + apply IH in E.
      pose proof (round_up_ge (offset + size) (alignment memory) Ha). lia.
Qed.

(** Buffers handed out by successive calls, each fed the offset returned by
    the previous one, do not overlap: an earlier buffer ends before a later
    one starts. *)
Lemma allocate_seq_no_overlap (memory : Memory) (sizes : list Z) :
  0 < alignment memory -> Forall (fun s => 0 <= s) sizes ->
  forall (offset : Z) (i j : nat) (ri rj : Z * Z) (si : Z),
  (i < j)%nat ->
  nth_error (allocate_seq memory offset sizes) i = Some ri ->
  nth_error sizes i = Some si ->
  nth_error (allocate_seq memory offset sizes) j = Some rj ->
  fst ri + si <= fst rj.
Proof.
  intros Ha Hs.
  induction Hs as [|size rest Hsize Hrest IH]; intros offset i j ri rj si Hij Ei Es Ej.
  - destruct i; discriminate.
  - destruct j as [|j]; [lia|]. cbn in Ej.
    destruct i as [|i]; cbn in Ei, Es.
    + injection Ei as <-. injection Es as <-. cbn.
      apply (allocate_seq_lower memory rest Ha Hrest) in Ej.
      pose proof (round_up_ge (offset + size) (alignment memory) Ha). lia.
    + eapply (IH _ i j ri rj si); [lia | eassumption..].
Qed.

Section Scratch.
Context {T : Type} {TT : TypeTraits T} {TS : SizeLaws T}.

Lemma init_output_ptr_exact (this : Linear.t T) (memory : Memory)
  (num_tokens offset : Z) :
  0 <= num_tokens * Linear.dim_out this <= INT_MAX ->
  Linear.init_output_ptr this memory num_tokens offset =
  (Linear.set_output this (scratch_base memory + offset),
   round_up (offset + num_tokens * Linear.dim_out this * sizeof (T:=T))
     (alignment memory)).
Proof.
  intros H. unfold Linear.init_output_ptr, allocate. cbn [fst snd].
  now rewrite bytes_exact.
Qed.

(** C4. Scratch allocation is address arithmetic. [allocate] binds the
    pointer to [scratch_base + offset] and returns [offset + size] rounded up
    to the alignment: a multiple of it, not below [offset + size] and less
    than one alignment above. [Linear::init_output_ptr] is one such call, of
    [num_tokens * dim_out * sizeof(T)] bytes, binding [output]. Neither takes
    nor returns device memory or a stream: no device traffic. A replay of a
    sequence of sizes from the same offset yields the same offsets whatever
    else has changed in the arena, and the same pointers while the scratch
    base is the same. *)
Theorem allocate_address_arithmetic (memory : Memory) (offset size : Z) :
  0 < alignment memory ->
  allocate memory offset size =
    (scratch_base memory + offset, round_up (offset + size) (alignment memory))
  /\ snd (allocate memory offset size) mod alignment memory = 0
  /\ offset + size <= snd (allocate memory offset size)
       < offset + size + alignment memory
  /\ (forall (this : Linear.t T) (num_tokens : Z),
      0 <= num_tokens * Linear.dim_out this <= INT_MAX ->
      Linear.init_output_ptr this memory num_tokens offset =
      (Linear.set_output this (scratch_base memory + offset),
       snd (allocate memory offset
              (num_tokens * Linear.dim_out this * sizeof (T:=T)))))
  /\ (forall (memory' : Memory) (sizes : list Z),
      alignment memory' = alignment memory ->
      map snd (allocate_seq memory' offset sizes)
      = map snd (allocate_seq memory offset sizes)
      /\ (scratch_base memory' = scratch_base memory ->
          allocate_seq memory' offset sizes = allocate_seq memory offset sizes)).
Proof.
  intros Ha. split; [reflexivity|]. cbn [allocate snd].
  split; [now apply round_up_aligned|].
  split; [split; [now apply round_up_ge | now apply round_up_lt]|].
  split.
  - intros this num_tokens H. now apply init_output_ptr_exact.
  - intros memory' sizes Ea. split.
    + now apply allocate_seq_offsets_depend.
    + intros Eb. now apply allocate_seq_depends.
Qed.

(** C8. Scratch buffers never overlap. Along any sequence of [allocate]
    calls that threads the returned offset, an earlier buffer ends before a
    later one starts. In particular [LMHead::init_output_ptr] binds [output]
    ([num_tokens * dim_out] elements) and [tmp_hidden_size] ([num_tokens *
    dim_in] elements) to disjoint byte ranges, and returns an offset that is
    at least the starting offset plus both sizes. *)
Theorem lmhead_scratch_disjoint (this : LMHead.t T) (memory : Memory)
  (num_tokens offset : Z) :
  0 < alignment memory ->
  0 <= num_tokens * Linear.dim_out (LMHead.base this) <= INT_MAX ->
  0 <= num_tokens * Linear.dim_in (LMHead.base this) <= INT_MAX ->
  (forall (sizes : list Z) (start : Z) (i j : nat) (ri rj : Z * Z) (si : Z),
   Forall (fun s => 0 <= s) sizes -> (i < j)%nat ->
   nth_error (allocate_seq memory start sizes) i = Some ri ->
   nth_error sizes i = Some si ->
   nth_error (allocate_seq memory start sizes) j = Some rj ->
   fst ri + si <= fst rj)
  /\ exists out tmp : Z,
     Linear.output (LMHead.base (fst (LMHead.init_output_ptr this memory num_tokens offset)))
       = Some out
     /\ LMHead.tmp_hidden_size (fst (LMHead.init_output_ptr this memory num_tokens offset))
       = Some tmp
     /\ disjoint (T:=T) out (num_tokens * Linear.dim_out (LMHead.base this))
          tmp (num_tokens * Linear.dim_in (LMHead.base this))
     /\ offset
        + num_tokens * Linear.dim_out (LMHead.base this) * sizeof (T:=T)
        + num_tokens * Linear.dim_in (LMHead.base this) * sizeof (T:=T)
        <= snd (LMHead.init_output_ptr this memory num_tokens offset).
Proof.
  intros Ha Ho Hi. split.
  - intros sizes start i j ri rj si Hs Hij Ei Es Ej.
    now apply (allocate_seq_no_overlap memory sizes Ha Hs start i j ri rj si).
  - unfold LMHead.init_output_ptr. cbn zeta.
    rewrite init_output_ptr_exact by assumption.
    cbn [fst snd LMHead.base LMHead.tmp_hidden_size Linear.set_output
         Linear.output allocate].
    rewrite bytes_exact by assumption.
    set (so := num_tokens * Linear.dim_out (LMHead.base this) * sizeof).
    set (si := num_tokens * Linear.dim_in (LMHead.base this) * sizeof).
    pose proof (round_up_ge (offset + so) (alignment memory) Ha) as R1.
    pose proof (round_up_ge (round_up (offset + so) (alignment memory) + si)
                  (alignment memory) Ha) as R2.
    eexists. eexists. split; [reflexivity|]. split; [reflexivity|].
    split; [left; fold so; lia | lia].
Qed.

End Scratch.

(** ** The dense product *)

Section Gemm.
Context {T : Type} {TT : TypeTraits T}.
Context {TS : SizeLaws T} {TA : ArithLaws T}.

Lemma sum_upto_ext (k : nat) (f g : Z -> T) :
  (forall l, 0 <= l < Z.of_nat k -> f l = g l) ->
  sum_upto k f = sum_upto k g.
Proof.
  induction k as [|k IH]; intros H; [reflexivity|].
  cbn [sum_upto]. rewrite IH, (H (Z.of_nat k)) by (intros; try apply H; lia).
  reflexivity.
Qed.

Lemma sum_below_ext (k : Z) (f g : Z -> T) :
  (forall l, 0 <= l < k -> f l = g l) -> sum_below k f = sum_below k g.
Proof.
  intros H. unfold sum_below. apply sum_upto_ext.
  intros l Hl. apply H. lia.
Qed.

(** The element of [C] at row [r] and column [c] after the GEMM. *)
Lemma exec_gemm_elt (mem : device_memory) (transa transb : cublasOperation_t)
  (m n k : Z) (alpha : T) (A lda B ldb : Z) (beta : T) (C ldc r c : Z) :
  0 <= r < m -> 0 <= c < n -> m <= ldc ->
  load (exec_gemm mem transa transb m n k alpha A lda B ldb beta C ldc)
    C (r + c * ldc)
  = gemm_elt mem transa transb k alpha A lda B ldb beta C ldc r c.
Proof.
  intros Hr Hc Hl. unfold load, exec_gemm.
  rewrite buf_index_elem by nia.
  rewrite Z.mod_add, Z.div_add by lia.
  rewrite Z.mod_small, Z.div_small by lia.
  replace (r <? m) with true by (symmetry; apply Z.ltb_lt; lia).
  now rewrite Z.add_0_l.
Qed.

(** The GEMM writes inside the [ldc * n] elements of [C] only. *)
Lemma exec_gemm_outside (mem : device_memory) (transa transb : cublasOperation_t)
  (m n k : Z) (alpha : T) (A lda B ldb : Z) (beta : T) (C ldc a : Z) :
  a < C \/ C + ldc * n * sizeof (T:=T) <= a ->
  exec_gemm mem transa transb m n k alpha A lda B ldb beta C ldc a = mem a.
Proof.
  intros Ha. unfold exec_gemm. now rewrite buf_index_outside.
Qed.

Lemma linear_Ok (stream : Stream T) (num_tokens dim_in dim_out : Z)
  (input weight output : Z) (transposed inplace : bool) :
  0 <= num_tokens -> 0 < dim_in -> 0 < dim_out ->
  linear stream num_tokens dim_in dim_out input weight output transposed inplace
  = Ok (stream ++ [linear_gemm num_tokens dim_in dim_out input weight output
                     transposed inplace]).
Proof.
  intros Hn Hi Ho. unfold linear, linear_gemm, cublasGemmEx.
  assert (G : forall ta lda, Z.max 1 (match ta with
                                      | CUBLAS_OP_N => dim_out
                                      | CUBLAS_OP_T => dim_in
                                      end) <= lda ->
              gemm_params_ok ta CUBLAS_OP_N dim_out num_tokens dim_in
                lda dim_in dim_out = true).
  { intros ta lda Hlda. unfold gemm_params_ok.
    repeat (apply andb_true_intro; split); apply Z.leb_le; lia. }
  destruct transposed; rewrite G by lia; reflexivity.
Qed.

(** Read row-major, the output of the GEMM of [linear] is the product of the
    projection, added to the old output when [inplace]. *)
Lemma linear_gemm_elt (mem : device_memory) (num_tokens dim_in dim_out : Z)
  (input weight output : Z) (transposed inplace : bool) (i j : Z) :
  0 <= i < num_tokens -> 0 <= j < dim_out ->
  matrix_at
    (exec mem (linear_gemm num_tokens dim_in dim_out input weight output
                 transposed inplace))
    output dim_out i j
  = if inplace
    then add (projection mem dim_in dim_out input weight transposed i j)
           (matrix_at mem output dim_out i j)
    else projection mem dim_in dim_out input weight transposed i j.
Proof.
  intros Hi Hj. unfold matrix_at, linear_gemm. cbn [exec].
  replace (i * dim_out + j) with (j + i * dim_out) by lia.
  rewrite exec_gemm_elt by lia.
  unfold gemm_elt. rewrite mul_1_l.
  assert (P : sum_below dim_in (fun l =>
                mul (op_elt mem (if transposed then CUBLAS_OP_T else CUBLAS_OP_N)
                       weight (if transposed then dim_in else dim_out) j l)
                    (op_elt mem CUBLAS_OP_N input dim_in l i))
              = projection mem dim_in dim_out input weight transposed i j).
  { unfold projection, matmul, transpose, matrix_at.
    destruct transposed; apply sum_below_ext; intros l Hl; cbn [op_elt];
      rewrite mul_comm; do 2 f_equal; lia. }
  rewrite P. destruct inplace.
  - now rewrite mul_1_l.
  - now rewrite mul_0_l, add_0_r.
Qed.

Lemma linear_gemm_outside (mem : device_memory) (num_tokens dim_in dim_out : Z)
  (input weight output : Z) (transposed inplace : bool) (a : Z) :
  a < output \/ output + num_tokens * dim_out * sizeof (T:=T) <= a ->
  exec mem (linear_gemm num_tokens dim_in dim_out input weight output
              transposed inplace) a = mem a.
Proof.
  intros Ha. unfold linear_gemm. cbn [exec]. apply exec_gemm_outside.
  rewrite (Z.mul_comm dim_out num_tokens). exact Ha.
Qed.

End Gemm.

(** ** Prefill *)

Section Prefill.
Context {T : Type} {TT : TypeTraits T}.
Context {TS : SizeLaws T} {TA : ArithLaws T}.

(** The buffer a [prefill] writes: [tgt], or the [output] member when [tgt]
    is null. *)
Lemma prefill_target (this : Linear.t T) (tgt out : Z) :
  (if tgt =? nullptr then Linear.output this else Some tgt) = Some out ->
  (if tgt =? nullptr then read_ptr (Linear.output this) else Ok tgt) = Ok out.
Proof.
  destruct (tgt =? nullptr); intros E.
  - now rewrite E.
  - now injection E as ->.
Qed.

Lemma prefill_without_bias (this : Linear.t T) (stream : Stream T)
  (num_tokens input tgt out w : Z) (inplace : bool) :
  Linear.has_bias this = false ->
  Linear.weight this = Some w ->
  (if tgt =? nullptr then Linear.output this else Some tgt) = Some out ->
  0 <= num_tokens -> 0 < Linear.dim_in this -> 0 < Linear.dim_out this ->
  Linear.prefill this stream num_tokens input tgt inplace
  = Ok (stream ++
        [linear_gemm num_tokens (Linear.dim_in this) (Linear.dim_out this)
           input w out (Linear.transposed this) inplace]).
Proof.
  intros HB Ew Et Hn Hi Ho. unfold Linear.prefill.
  rewrite (prefill_target this tgt out Et), Ew. cbn [bind read_ptr].
  rewrite linear_Ok by assumption. cbn [bind]. now rewrite HB.
Qed.

Lemma prefill_with_bias (this : Linear.t T) (stream : Stream T)
  (num_tokens input tgt out w b : Z) (inplace : bool) :
  Linear.has_bias this = true ->
  Linear.weight this = Some w -> Linear.bias this = Some b ->
  (if tgt =? nullptr then Linear.output this else Some tgt) = Some out ->
  0 <= num_tokens -> 0 < Linear.dim_in this -> 0 < Linear.dim_out this ->
  Linear.prefill this stream num_tokens input tgt inplace
  = Ok (stream ++
        [linear_gemm num_tokens (Linear.dim_in this) (Linear.dim_out this)
           input w out (Linear.transposed this) inplace;
         BatchedAdd num_tokens (Linear.dim_out this) out b out]).
Proof.
  intros HB Ew Eb Et Hn Hi Ho. unfold Linear.prefill.
  rewrite (prefill_target this tgt out Et), Ew. cbn [bind read_ptr].
  rewrite linear_Ok by assumption. cbn [bind]. rewrite HB, Eb.
  cbn [bind read_ptr]. unfold batched_add. now rewrite <- app_assoc.
Qed.

(** C1. [linear] enqueues one GEMM whose result, read as a row-major
    [num_tokens x dim_out] matrix, is [input x W^T] when [transposed] ([W]
    laid out [dim_out x dim_in]) and [input x W] otherwise ([W] laid out
    [dim_in x dim_out]). With [inplace] the product is added to the previous
    contents of the output; without it the output is overwritten. Nothing
    outside the output buffer changes. [Linear::prefill] of a projection
    without bias is this very call, on its weight and its target. *)
Theorem linear_computes_projection (stream : Stream T)
  (num_tokens dim_in dim_out : Z) (input weight output : Z)
  (transposed inplace : bool) :
  0 <= num_tokens -> 0 < dim_in -> 0 < dim_out ->
  let gemm := linear_gemm num_tokens dim_in dim_out input weight output
                transposed inplace in
  linear stream num_tokens dim_in dim_out input weight output transposed inplace
  = Ok (stream ++ [gemm])
  /\ (forall mem : device_memory,
      (forall i j, 0 <= i < num_tokens -> 0 <= j < dim_out ->
       matrix_at (run [gemm] mem) output dim_out i j
       = if inplace
         then add (projection mem dim_in dim_out input weight transposed i j)
                (matrix_at mem output dim_out i j)
         else projection mem dim_in dim_out input weight transposed i j)
      /\ (forall a,
          a < output \/ output + num_tokens * dim_out * sizeof (T:=T) <= a ->
          run [gemm] mem a = mem a))
  /\ (forall (this : Linear.t T) (tgt : Z),
      Linear.dim_in this = dim_in -> Linear.dim_out this = dim_out ->
      Linear.transposed this = transposed -> Linear.has_bias this = false ->
      Linear.weight this = Some weight ->
      (if tgt =? nullptr then Linear.output this else Some tgt) = Some output ->
      Linear.prefill this stream num_tokens input tgt inplace
      = Ok (stream ++ [gemm])).
Proof.
  intros Hn Hi Ho gemm. split; [now apply linear_Ok|]. split.
  - intros mem. cbn [run fold_left]. split.
    + intros i j Hi' Hj'. now apply linear_gemm_elt.
    + intros a Ha. now apply linear_gemm_outside.
  - intros this tgt <- <- <- HB Ew Et. now apply prefill_without_bias.
Qed.

(** The work of a [prefill] goes behind whatever the stream already holds. *)
Lemma prefill_appends (this : Linear.t T) (stream : Stream T)
  (num_tokens input tgt : Z) (inplace : bool) :
  Linear.prefill this stream num_tokens input tgt inplace
  = (ks <- Linear.prefill this [] num_tokens input tgt inplace ;;
     Ok (stream ++ ks)).
Proof.
  unfold Linear.prefill.
  destruct (if tgt =? nullptr then read_ptr (Linear.output this) else Ok tgt)
    as [out| |]; cbn [bind]; try reflexivity.
  destruct (read_ptr (Linear.weight this)) as [w| |]; cbn [bind];
    try reflexivity.
  unfold linear, cublasGemmEx.
  destruct (Linear.transposed this);
    destruct (gemm_params_ok _ _ _ _ _ _ _ _); cbn [cublasCheck bind app];
    try reflexivity;
    (destruct (Linear.has_bias this); [|reflexivity]);
    (destruct (read_ptr (Linear.bias this)); cbn [bind]; try reflexivity);
    unfold batched_add; cbn [app]; now rewrite <- app_assoc.
Qed.

Lemma run_app (s1 s2 : Stream T) (mem : device_memory) :
  run (s1 ++ s2) mem = run s2 (run s1 mem).
Proof.
  unfold run. apply fold_left_app.
Qed.

(** The broadcast add on top of the output of a GEMM. *)
Lemma batched_add_elt (mem : device_memory) (num_tokens dim a b c i j : Z) :
  0 <= i < num_tokens -> 0 <= j < dim ->
  matrix_at (exec_batched_add mem num_tokens dim a b c) c dim i j
  = add (matrix_at mem a dim i j) (vector_at mem b j).
Proof.
  intros Hi Hj. unfold matrix_at, vector_at, exec_batched_add.
  rewrite load_store_buf by nia.
  rewrite Z.add_comm, Z.mod_add, Z.mod_small by lia.
  now rewrite Z.add_comm.
Qed.

(** C3, as the code has it. A projection constructed with [has_bias], run
    without accumulation, enqueues the GEMM and then, on the same stream, the
    broadcast add of the bias; when the stream has run, [output[i][j]] is
    the element of the product plus [bias[j]] for every row [i] and column
    [j]. The product is [input x W^T] for a transposed weight layout and
    [input x W] for a weight that is not transposed. *)
Theorem prefill_adds_bias_after_product (this : Linear.t T)
  (stream : Stream T) (num_tokens input tgt out w b : Z) :
  Linear.has_bias this = true ->
  Linear.weight this = Some w -> Linear.bias this = Some b ->
  (if tgt =? nullptr then Linear.output this else Some tgt) = Some out ->
  0 <= num_tokens -> 0 < Linear.dim_in this -> 0 < Linear.dim_out this ->
  let gemm := linear_gemm num_tokens (Linear.dim_in this) (Linear.dim_out this)
                input w out (Linear.transposed this) false in
  let bias_add := BatchedAdd num_tokens (Linear.dim_out this) out b out in
  Linear.prefill this stream num_tokens input tgt false
  = Ok (stream ++ [gemm; bias_add])
  /\ forall mem : device_memory,
     disjoint (T:=T) out (num_tokens * Linear.dim_out this)
       b (Linear.dim_out this) ->
     forall i j, 0 <= i < num_tokens -> 0 <= j < Linear.dim_out this ->
     matrix_at (run [gemm; bias_add] mem) out (Linear.dim_out this) i j
     = add (projection mem (Linear.dim_in this) (Linear.dim_out this)
              input w (Linear.transposed this) i j)
           (vector_at mem b j).
Proof.
  intros HB Ew Eb Et Hn Hi Ho gemm bias_add.
  split; [now apply prefill_with_bias|].
  intros mem D i j Hi' Hj'. cbn [run fold_left].
  change (exec (exec mem gemm) bias_add)
    with (exec_batched_add (exec mem gemm) num_tokens (Linear.dim_out this)
            out b out).
  rewrite batched_add_elt by assumption.
  unfold gemm. rewrite linear_gemm_elt by assumption.
  f_equal. unfold vector_at, load. apply linear_gemm_outside.
  now apply elem_addr_outside with (k := Linear.dim_out this).
Qed.

End Prefill.

(** ** The head *)

Section Head.
Context {T : Type} {TT : TypeTraits T}.
Context {TS : SizeLaws T} {TA : ArithLaws T}.

Lemma scale_elt (mem : device_memory) (num_tokens dim input : Z) (scale : T)
  (output i j : Z) :
  0 <= i < num_tokens -> 0 <= j < dim ->
  matrix_at (exec_elementwise_scale mem num_tokens dim input scale output)
    output dim i j
  = mul scale (matrix_at mem input dim i j).
Proof.
  intros Hi Hj. unfold matrix_at, exec_elementwise_scale.
  now rewrite load_store_buf by nia.
Qed.

Lemma scale_outside (mem : device_memory) (num_tokens dim input : Z)
  (scale : T) (output a : Z) :
  a < output \/ output + num_tokens * dim * sizeof (T:=T) <= a ->
  exec_elementwise_scale mem num_tokens dim input scale output a = mem a.
Proof.
  intros Ha. unfold exec_elementwise_scale. now apply store_buf_outside.
Qed.

Lemma scale_keeps (mem : device_memory) (num_tokens dim input : Z)
  (scale : T) (output q k cols i j : Z) :
  disjoint (T:=T) output (num_tokens * dim) q k ->
  0 <= i * cols + j < k ->
  matrix_at (exec_elementwise_scale mem num_tokens dim input scale output)
    q cols i j
  = matrix_at mem q cols i j.
Proof.
  intros D H. unfold matrix_at, load. apply scale_outside.
  now apply elem_addr_outside with (k := k).
Qed.

(** C5. [LMHead::prefill] first enqueues the scaling of the input into the
    temporary buffer and then whatever the wrapped [Linear::prefill] enqueues
    when it is given the temporary as its input. The scaling writes
    [head_scale * input[i][j]] to the temporary for every element of the
    [num_tokens x dim_in] activation and changes no byte outside the
    temporary, so an input buffer apart from it is left as it was. The
    outcome is therefore that of the wrapped projection on the scaled
    input. *)
Theorem lmhead_prefill_scales_then_projects (this : LMHead.t T)
  (stream : Stream T) (num_tokens input tgt tmp : Z) (inplace : bool) :
  LMHead.tmp_hidden_size this = Some tmp ->
  let dim_in := Linear.dim_in (LMHead.base this) in
  let scale :=
    ElementwiseScale num_tokens dim_in input (LMHead.head_scale this) tmp in
  LMHead.prefill this stream num_tokens input tgt inplace
  = (ks <- Linear.prefill (LMHead.base this) [] num_tokens tmp tgt inplace ;;
     Ok (stream ++ scale :: ks))
  /\ forall mem : device_memory,
     (forall i j, 0 <= i < num_tokens -> 0 <= j < dim_in ->
      matrix_at (exec mem scale) tmp dim_in i j
      = mul (LMHead.head_scale this) (matrix_at mem input dim_in i j))
     /\ (forall a,
         a < tmp \/ tmp + num_tokens * dim_in * sizeof (T:=T) <= a ->
         exec mem scale a = mem a)
     /\ (disjoint (T:=T) tmp (num_tokens * dim_in) input (num_tokens * dim_in) ->
         forall i j, 0 <= i < num_tokens -> 0 <= j < dim_in ->
         matrix_at (exec mem scale) input dim_in i j
         = matrix_at mem input dim_in i j)
     /\ (forall ks : Stream T, run (scale :: ks) mem = run ks (exec mem scale)).
Proof.
  intros Et dim_in scale. split.
  - unfold LMHead.prefill. rewrite Et. cbn [bind read_ptr].
    rewrite prefill_appends. unfold elementwise_scale.
    destruct (Linear.prefill (LMHead.base this) [] num_tokens tmp tgt inplace);
      cbn [bind]; try reflexivity.
    now rewrite <- app_assoc.
  - intros mem. cbn [exec]. split; [|split; [|split]].
    + intros i j Hi Hj. now apply scale_elt.
    + intros a Ha. now apply scale_outside.
    + intros D i j Hi Hj. apply scale_keeps with (k := num_tokens * dim_in);
        [assumption | nia].
    + reflexivity.
Qed.

(** The head end to end, for a projection without bias: the output is the
    product of the scaled input with the weight. *)
Lemma lmhead_prefill_result (this : LMHead.t T) (stream : Stream T)
  (num_tokens input tgt tmp out w : Z) (inplace : bool) :
  let lin := LMHead.base this in
  LMHead.tmp_hidden_size this = Some tmp ->
  Linear.has_bias lin = false ->
  Linear.weight lin = Some w ->
  (if tgt =? nullptr then Linear.output lin else Some tgt) = Some out ->
  0 <= num_tokens -> 0 < Linear.dim_in lin -> 0 < Linear.dim_out lin ->
  disjoint (T:=T) tmp (num_tokens * Linear.dim_in lin)
    w (Linear.dim_in lin * Linear.dim_out lin) ->
  exists ks,
    LMHead.prefill this stream num_tokens input tgt false = Ok (stream ++ ks)
    /\ forall (mem : device_memory) (i j : Z),
       0 <= i < num_tokens -> 0 <= j < Linear.dim_out lin ->
       let scaled := fun r c =>
         mul (LMHead.head_scale this)
           (matrix_at mem input (Linear.dim_in lin) r c) in
       matrix_at (run ks mem) out (Linear.dim_out lin) i j
       = if Linear.transposed lin
         then matmul (Linear.dim_in lin) scaled
                (transpose (matrix_at mem w (Linear.dim_in lin))) i j
         else matmul (Linear.dim_in lin) scaled
                (matrix_at mem w (Linear.dim_out lin)) i j.
Proof.
  intros lin Et HB Ew Eo Hn Hi Ho D.
  eexists. split.
  - unfold LMHead.prefill. rewrite Et. cbn [bind read_ptr].
    fold lin. rewrite (prefill_without_bias lin _ num_tokens tmp tgt out w)
      by assumption.
    unfold elementwise_scale. rewrite <- app_assoc. reflexivity.
  - intros mem i j Hi' Hj' scaled. cbn [app run fold_left].
    rewrite linear_gemm_elt by assumption.
    unfold projection, matmul, transpose.
    destruct (Linear.transposed lin); apply sum_below_ext; intros l Hl;
      cbn [exec]; rewrite scale_elt by lia; unfold scaled; f_equal;
      apply scale_keeps with (k := Linear.dim_in lin * Linear.dim_out lin);
      (assumption || nia).
Qed.

End Head.

(** ** The instantiated kernel family *)

Module MarlinFacts.
Import Marlin.

Lemma in_MARLIN_INST_SPLIT (v : Instantiation) (d : scalar_t)
  (q : ScalarTypeId) (b s m n p : Z) :
  In v (MARLIN_INST_SPLIT d q b s m n p) <->
  dtype v = d /\ qtype v = q /\ block_size v = b /\ split v = s
  /\ warp_m v = m /\ warp_n v = n /\ pack_size v = p
  /\ arg8 v = false /\ arg9 v = true /\ In (group v) marlin_groups.
Proof.
  unfold MARLIN_INST_SPLIT, marlin_groups. split.
  - intros H. cbn [In] in H.
    destruct H as [<-|[<-|[<-|[<-|[]]]]]; cbn; intuition.
  - destruct v as [d' q' b' s' m' n' p' a8 a9 g]. cbn.
    intros (-> & -> & -> & -> & -> & -> & -> & -> & -> & H).
    destruct H as [<-|[<-|[<-|[<-|[]]]]]; auto.
Qed.

Lemma in_MARLIN_INST_ALL_SPLITS (v : Instantiation) (d : scalar_t)
  (q : ScalarTypeId) (b m n p : Z) :
  In v (MARLIN_INST_ALL_SPLITS d q b m n p) <->
  dtype v = d /\ qtype v = q /\ block_size v = b /\ In (split v) marlin_splits
  /\ warp_m v = m /\ warp_n v = n /\ pack_size v = p
  /\ arg8 v = false /\ arg9 v = true /\ In (group v) marlin_groups.
Proof.
  unfold MARLIN_INST_ALL_SPLITS, marlin_splits.
  rewrite !in_app_iff, !in_MARLIN_INST_SPLIT. cbn [In].
  intuition congruence.
Qed.

Lemma in_MARLIN_INST_QTYPE (v : Instantiation) (d : scalar_t) (b m n p : Z) :
  In v (MARLIN_INST_QTYPE d b m n p) <->
  dtype v = d /\ In (qtype v) marlin_qtypes /\ block_size v = b
  /\ In (split v) marlin_splits
  /\ warp_m v = m /\ warp_n v = n /\ pack_size v = p
  /\ arg8 v = false /\ arg9 v = true /\ In (group v) marlin_groups.
Proof.
  unfold MARLIN_INST_QTYPE, marlin_qtypes.
  rewrite !in_app_iff, !in_MARLIN_INST_ALL_SPLITS. cbn [In].
  intuition congruence.
Qed.

Lemma in_MARLIN_INST_CONFIG (v : Instantiation) (b m n p : Z) :
  In v (MARLIN_INST_CONFIG b m n p) <->
  dtype v = nv_bfloat16 /\ In (qtype v) marlin_qtypes
  /\ (block_size v, (warp_m v, warp_n v)) = (b, (m, n))
  /\ In (split v) marlin_splits /\ pack_size v = p
  /\ arg8 v = false /\ arg9 v = true /\ In (group v) marlin_groups.
Proof.
  unfold MARLIN_INST_CONFIG. rewrite in_MARLIN_INST_QTYPE.
  split.
  - intros (? & ? & -> & ? & -> & -> & ?). tauto.
  - intros (? & ? & [= -> -> ->] & ?). tauto.
Qed.

(** Every instantiation the file emits, characterised. *)
Lemma in_instantiations (v : Instantiation) :
  In v (instantiations true) <->
  in_cross_product v
  /\ dtype v = nv_bfloat16 /\ pack_size v = 4
  /\ arg8 v = false /\ arg9 v = true.
Proof.
  unfold instantiations, in_cross_product, marlin_shapes.
  rewrite !in_app_iff, !in_MARLIN_INST_CONFIG. cbn [In].
  split.
  - intros [H|[H|[H|H]]]; destruct H as (? & ? & E & ? & ? & ? & ? & ?);
      rewrite E; tauto.
  - intros ((S & ? & ? & ?) & ? & ? & ? & ?).
    destruct S as [E|[E|[E|[E|[]]]]]; rewrite <- E; tauto.
Qed.

End MarlinFacts.

(** C6. With [ENABLE_DTYPE_BF16] defined, the instantiated kernels are
    exactly the cross product of the four block/warp shapes (256 with (16,4),
    256 with (8,8), 128 with (8,4), 128 with (4,8)), the split factors 1 to
    4, the two quantization types and the group parameters -1, 2, 4, 8: an
    instantiation is emitted if and only if it is a point of the product (for
    bf16, pack size 4 and the two fixed flags). There are 128 of them, no
    two alike. *)
Theorem marlin_family_is_cross_product :
  (forall v : Marlin.Instantiation,
   In v (Marlin.instantiations true) <->
   in_cross_product v
   /\ Marlin.dtype v = Marlin.nv_bfloat16 /\ Marlin.pack_size v = 4
   /\ Marlin.arg8 v = false /\ Marlin.arg9 v = true)
  /\ (forall (shape : Z * (Z * Z)) (s : Z) (q : Marlin.ScalarTypeId) (g : Z),
      In shape marlin_shapes -> In s marlin_splits ->
      In q marlin_qtypes -> In g marlin_groups ->
      exists v, In v (Marlin.instantiations true)
        /\ (Marlin.block_size v, (Marlin.warp_m v, Marlin.warp_n v)) = shape
        /\ Marlin.split v = s /\ Marlin.qtype v = q /\ Marlin.group v = g)
  /\ NoDup (Marlin.instantiations true)
  /\ List.length (Marlin.instantiations true) = 128%nat.
Proof.
  split; [exact MarlinFacts.in_instantiations|].
  split; [|split].
  - intros [b [m n]] s q g Hs Hsp Hq Hg.
    exists (Marlin.Build_Instantiation Marlin.nv_bfloat16 q b s m n 4
              false true g).
    split; [|cbn; tauto].
    apply MarlinFacts.in_instantiations. unfold in_cross_product. cbn. tauto.
  - apply (NoDup_count_occ' Marlin.Instantiation_eq_dec). intros v Hv.
    apply MarlinFacts.in_instantiations in Hv.
    destruct Hv as ((S & Sp & Q & G) & Ed & Ep & E8 & E9).
    destruct v as [d q b s m n p a8 a9 g].
    unfold marlin_shapes, marlin_splits, marlin_qtypes, marlin_groups in *.
    cbn in S, Sp, Q, G, Ed, Ep, E8, E9. subst d p a8 a9.
    destruct S as [E|[E|[E|[E|[]]]]]; injection E as <- <- <-;
      destruct Sp as [<-|[<-|[<-|[<-|[]]]]];
      destruct Q as [<-|[<-|[]]];
      destruct G as [<-|[<-|[<-|[<-|[]]]]];
      vm_compute; reflexivity.
  - reflexivity.
Qed.

(** C7, refuted. The first configuration is instantiated for the 4-bit and
    for the 8-bit type, the two instantiations agree on every other
    parameter, and their pack size is the same. *)
Lemma marlin_pack_size_counterexample :
  In ex_inst_u4 (Marlin.instantiations true)
  /\ In ex_inst_u8 (Marlin.instantiations true)
  /\ qtype_pair ex_inst_u4 ex_inst_u8
  /\ Marlin.pack_size ex_inst_u4 = 4
  /\ Marlin.pack_size ex_inst_u8 = 4
  /\ ~ Marlin.pack_size ex_inst_u4 <> Marlin.pack_size ex_inst_u8.
Proof.
  split; [|split; [|split; [|split; [|split]]]].
  - apply MarlinFacts.in_instantiations. vm_compute. tauto.
  - apply MarlinFacts.in_instantiations. vm_compute. tauto.
  - unfold qtype_pair. cbn. tauto.
  - reflexivity.
  - reflexivity.
  - intros N. now apply N.
Qed.

(** C7, as the code has it. [MARLIN_INST_QTYPE] hands one pack size to the
    4-bit and to the 8-bit instantiation, and every configuration passes 4:
    the 4-bit and the 8-bit variant of a configuration are instantiated with
    the same pack size, 4. *)
Theorem marlin_pack_size_shared (v4 v8 : Marlin.Instantiation) :
  In v4 (Marlin.instantiations true) ->
  In v8 (Marlin.instantiations true) ->
  qtype_pair v4 v8 ->
  Marlin.pack_size v4 = Marlin.pack_size v8 /\ Marlin.pack_size v4 = 4.
Proof.
  intros H4 H8 _.
  apply MarlinFacts.in_instantiations in H4.
  apply MarlinFacts.in_instantiations in H8.
  destruct H4 as (_ & _ & E4 & _). destruct H8 as (_ & _ & E8 & _).
  split; congruence.
Qed.

(** The shared pack size on the two instantiations of the first
    configuration. *)
Lemma marlin_pack_size_shared_witness :
  Marlin.pack_size ex_inst_u4 = Marlin.pack_size ex_inst_u8
  /\ Marlin.pack_size ex_inst_u4 = 4.
Proof.
  apply (marlin_pack_size_shared ex_inst_u4 ex_inst_u8).
  - apply MarlinFacts.in_instantiations. vm_compute. tauto.
  - apply MarlinFacts.in_instantiations. vm_compute. tauto.
  - unfold qtype_pair. cbn. tauto.
Defined.

(** ** The properties on concrete inputs *)

(** C3, refuted for the layout that is not transposed. On the 2 x 2
    projection [ex_untransposed], with input row [1 0], weight [[0 1] [0 0]]
    and a zero bias, the output element of column 1 is 1, while [input x W^T]
    plus the bias gives 0 there. *)
Lemma prefill_bias_untransposed_counterexample :
  exists ks : Stream Z,
    Linear.has_bias ex_untransposed = true
    /\ Linear.prefill ex_untransposed [] 1 0 nullptr false = Ok ks
    /\ matrix_at (run ks ex_mem) 300 2 0 1 = 1
    /\ add (matmul 2 (matrix_at ex_mem 0 2)
              (transpose (matrix_at ex_mem 100 2)) 0 1)
           (vector_at ex_mem 200 1) = 0
    /\ matrix_at (run ks ex_mem) 300 2 0 1
       <> add (matmul 2 (matrix_at ex_mem 0 2)
                 (transpose (matrix_at ex_mem 100 2)) 0 1)
              (vector_at ex_mem 200 1).
Proof.
  eexists. split; [reflexivity|]. split; [reflexivity|].
  split; [reflexivity|]. split; [reflexivity|]. vm_compute. discriminate.
Qed.

(** [linear] on a 1 x 2 input and a 3 x 2 transposed weight, accumulating. *)
Lemma linear_computes_projection_witness :
  linear (T:=Z) [] 1 2 3 0 100 300 true true
  = Ok [linear_gemm 1 2 3 0 100 300 true true]
  /\ matrix_at (run [linear_gemm 1 2 3 0 100 300 true true] ex_mem) 300 3 0 1
     = add (projection ex_mem 2 3 0 100 true 0 1) (matrix_at ex_mem 300 3 0 1).
Proof.
  destruct (linear_computes_projection (T:=Z) [] 1 2 3 0 100 300 true true)
    as (E & H & _); [lia | lia | lia |].
  split; [exact E|]. apply (proj1 (H ex_mem)); lia.
Defined.

(** A load under the name "layers.0.weight". *)
Lemma load_to_storage_by_name_witness :
  exists mem' : device_memory,
    Linear.load_to_storage ex_linear "layers.0.weight" ex_host ex_mem = Ok mem'
    /\ copied_to ex_mem mem' 100 6 ex_host.
Proof.
  apply (proj1 (load_to_storage_by_name (T:=Z) ex_linear "layers.0.weight"
                  ex_host ex_mem ltac:(arith) ltac:(arith))).
  - exists "layers.0."%string, ""%string. reflexivity.
  - reflexivity.
Defined.

(** A load under the name "bias_weight". *)
Lemma load_to_storage_weight_first_witness :
  exists mem' : device_memory,
    Linear.load_to_storage ex_linear "bias_weight" ex_host ex_mem = Ok mem'
    /\ copied_to ex_mem mem' 100 6 ex_host
    /\ forall b, Linear.bias ex_linear = Some b ->
       disjoint (T:=Z) 100 6 b 3 ->
       forall j, 0 <= j < 3 -> vector_at mem' b j = vector_at ex_mem b j.
Proof.
  apply (load_to_storage_weight_first (T:=Z) ex_linear "bias_weight"
           ex_host ex_mem 100).
  - arith.
  - reflexivity.
  - exists "bias_"%string, ""%string. reflexivity.
  - exists ""%string, "_weight"%string. reflexivity.
Defined.

(** A load under the name "lm_head.bias" after [init_weight_ptr] on a
    projection with bias. *)
Lemma bias_load_safe_iff_has_bias_witness :
  exists (b : Z) (mem' : device_memory),
    Linear.bias ex_initialised = Some b
    /\ model_base ex_memory + model_offset ex_memory <= b
    /\ b + 3 * sizeof (T:=Z) = model_base ex_memory + 18
    /\ 18 <= model_capacity ex_memory
    /\ Linear.load_to_storage ex_initialised "lm_head.bias" ex_host ex_mem
       = Ok mem'
    /\ copied_to ex_mem mem' b 3 ex_host.
Proof.
  assert (E : Linear.init_weight_ptr (T:=Z) (Linear.new 2 3 true true) ex_memory
              = Ok (ex_initialised,
                    {| model_base := 4096; model_offset := 18;
                       model_capacity := 65536; scratch_base := 1048576;
                       alignment := 256 |}))
    by (vm_compute; reflexivity).
  assert (NW : ~ contains "lm_head.bias" "weight")
    by (apply find_npos_iff; vm_compute; reflexivity).
  assert (CB : contains "lm_head.bias" "bias")
    by (exists "lm_head."%string, ""%string; reflexivity).
  destruct (bias_load_safe_iff_has_bias (T:=Z) 2 3 true true ex_memory _
              ex_initialised "lm_head.bias" ex_host ex_mem
              ltac:(arith) ltac:(arith) E NW CB) as (_ & H & _).
  exact (H eq_refl).
Defined.

(** One hundred bytes at offset 0 of [ex_memory]. *)
Lemma allocate_address_arithmetic_witness :
  allocate ex_memory 0 100 = (1048576, 256).
Proof.
  exact (proj1 (allocate_address_arithmetic (T:=Z) ex_memory 0 100
                  ltac:(arith))).
Defined.

(** The scratch layout of [ex_head] for four tokens. *)
Lemma lmhead_scratch_disjoint_witness :
  exists out tmp : Z,
    Linear.output (LMHead.base (fst (LMHead.init_output_ptr ex_head ex_memory 4 0)))
      = Some out
    /\ LMHead.tmp_hidden_size (fst (LMHead.init_output_ptr ex_head ex_memory 4 0))
      = Some tmp
    /\ disjoint (T:=Z) out (4 * 3) tmp (4 * 2)
    /\ 0 + 4 * 3 * 2 + 4 * 2 * 2
       <= snd (LMHead.init_output_ptr ex_head ex_memory 4 0).
Proof.
  exact (proj2 (lmhead_scratch_disjoint (T:=Z) ex_head ex_memory 4 0
                  ltac:(arith) ltac:(arith) ltac:(arith))).
Defined.

(** [prefill] of [ex_linear] on one token. *)
Lemma prefill_adds_bias_after_product_witness :
  Linear.prefill ex_linear [] 1 0 nullptr false
  = Ok [linear_gemm 1 2 3 0 100 300 true false; BatchedAdd 1 3 300 200 300]
  /\ matrix_at
       (run [linear_gemm 1 2 3 0 100 300 true false;
             BatchedAdd 1 3 300 200 300] ex_mem) 300 3 0 1
     = add (projection ex_mem 2 3 0 100 true 0 1) (vector_at ex_mem 200 1).
Proof.
  destruct (prefill_adds_bias_after_product (T:=Z) ex_linear [] 1 0 nullptr
              300 100 200)
    as [E H]; try reflexivity; try arith.
  split; [exact E|].
  apply (H ex_mem); [right; arith | lia | arith].
Defined.

(** [prefill] of [ex_head] on one token. *)
Lemma lmhead_prefill_scales_then_projects_witness :
  LMHead.prefill ex_head [] 1 0 nullptr false
  = Ok [ElementwiseScale 1 2 0 3 400;
        linear_gemm 1 2 3 400 100 300 true false;
        BatchedAdd 1 3 300 200 300]
  /\ matrix_at (exec ex_mem (ElementwiseScale 1 2 0 3 400)) 400 2 0 0
     = mul 3 (matrix_at ex_mem 0 2 0 0).
Proof.
  destruct (lmhead_prefill_scales_then_projects (T:=Z) ex_head [] 1 0 nullptr
              400 false eq_refl) as [E H].
  split; [exact E|].
  destruct (H ex_mem) as [H1 _]. apply (H1 0 0); arith.
Defined.

(** ** Evaluations *)

Example int_mul_wraps : int_mul 65536 65536 = 0.
Proof. reflexivity. Qed.

Example size_mul_of_negative : size_mul (-1) 2 = 2 ^ 64 - 2.
Proof. reflexivity. Qed.

Example find_weight_in_bias_weight : find "bias_weight" "weight" = Some 5%nat.
Proof. reflexivity. Qed.

Example find_weight_absent : find "lm_head.bias" "weight" = None.
Proof. reflexivity. Qed.

Example load_unsupported_name :
  Linear.load_to_storage ex_linear "scales" ex_host ex_mem
  = Throw (invalid_argument "Unsupported name scales").
Proof. reflexivity. Qed.

Example load_bias_without_bias :
  Linear.load_to_storage (T:=Z) (Linear.new 2 3 true false) "bias" ex_host ex_mem
  = Undefined.
Proof. reflexivity. Qed.

Example load_weight_contents :
  exists mem',
    Linear.load_to_storage ex_linear "bias_weight" ex_host ex_ramp = Ok mem'
    /\ map (vector_at mem' 100) [0; 1; 2; 3; 4; 5] = [1; 2; 3; 4; 5; 6]
    /\ map (vector_at mem' 200) [0; 1; 2] = [100; 101; 102].
Proof. eexists. split; [reflexivity|]. split; reflexivity. Qed.

Example linear_rejects_empty_rows :
  linear (T:=Z) [] 1 0 3 0 100 300 true false
  = Throw (cublas_failure CUBLAS_STATUS_INVALID_VALUE).
Proof. reflexivity. Qed.

(** Input row [0 1]; weight rows [50 51], [52 53], [54 55]; bias
    [100 101 102]. *)
Example prefill_on_ramp :
  exists ks,
    Linear.prefill ex_linear [] 1 0 nullptr false = Ok ks
    /\ map (matrix_at (run ks ex_ramp) 300 3 0) [0; 1; 2] = [151; 154; 157].
Proof. eexists. split; reflexivity. Qed.

(** The same weight cells read as a 2 x 3 matrix: rows [50 51 52] and
    [53 54 55]. *)
Example prefill_untransposed_on_ramp :
  exists ks,
    Linear.prefill
      {| Linear.dim_in := 2; Linear.dim_out := 3;
         Linear.transposed := false; Linear.has_bias := false;
         Linear.output := Some 300; Linear.weight := Some 100;
         Linear.bias := None |} [] 1 0 nullptr true = Ok ks
    /\ map (matrix_at (run ks ex_ramp) 300 3 0) [0; 1; 2]
       = [53 + 150; 54 + 151; 55 + 152].
Proof. eexists. split; reflexivity. Qed.

Example lmhead_prefill_on_ramp :
  exists ks,
    LMHead.prefill ex_head [] 1 0 nullptr false = Ok ks
    /\ map (matrix_at (run ks ex_ramp) 400 2 0) [0; 1] = [0; 3]
    /\ map (matrix_at (run ks ex_ramp) 300 3 0) [0; 1; 2]
       = [3 * 51 + 100; 3 * 53 + 101; 3 * 55 + 102].
Proof. eexists. split; [reflexivity|]. split; reflexivity. Qed.

Example lmhead_layout :
  LMHead.init_output_ptr ex_head ex_memory 4 0
  = ({| LMHead.base := Linear.set_output ex_linear 1048576;
        LMHead.tmp_hidden_size := Some 1048832;
        LMHead.head_scale := 3 |}, 512).
Proof. reflexivity. Qed.

Example allocate_seq_layout :
  allocate_seq ex_memory 0 [24; 16; 300]
  = [(1048576, 256); (1048832, 512); (1049088, 1024)].
Proof. reflexivity. Qed.

Example init_weight_ptr_out_of_memory :
  Linear.init_weight_ptr (T:=Z) (Linear.new 1024 1024 true true) ex_memory
  = Throw OutOfDeviceMemory.
Proof. reflexivity. Qed.

Example no_instantiations_without_bf16 : Marlin.instantiations false = [].
Proof. reflexivity. Qed.

(** * Further properties of the code *)

(** ** [linear]: layouts and accumulation *)

Section FurtherLinear.
Context {T : Type} {TT : TypeTraits T}.
Context {TS : SizeLaws T} {TA : ArithLaws T}.

(** A matrix that lies apart from a buffer reads the same in two memories
    that differ inside that buffer only. *)
Lemma matrix_at_frame (mem mem' : device_memory) (out k q len cols i j : Z) :
  (forall a, a < out \/ out + k * sizeof (T:=T) <= a -> mem' a = mem a) ->
  disjoint (T:=T) out k q len -> 0 <= i * cols + j < len ->
  matrix_at mem' q cols i j = matrix_at mem q cols i j.
Proof.
  intros F D H. unfold matrix_at, load. apply F.
  now apply elem_addr_outside with (k := len).
Qed.

Lemma projection_frame (mem mem' : device_memory)
  (out k num_tokens dim_in dim_out input weight : Z) (transposed : bool)
  (i j : Z) :
  (forall a, a < out \/ out + k * sizeof (T:=T) <= a -> mem' a = mem a) ->
  disjoint (T:=T) out k input (num_tokens * dim_in) ->
  disjoint (T:=T) out k weight (dim_in * dim_out) ->
  0 <= i < num_tokens -> 0 <= j < dim_out ->
  projection mem' dim_in dim_out input weight transposed i j
  = projection mem dim_in dim_out input weight transposed i j.
Proof.
  intros F Di Dw Hi Hj. unfold projection, matmul, transpose.
  destruct transposed; apply sum_below_ext; intros l Hl; f_equal;
    try (apply (matrix_at_frame mem mem' out k input (num_tokens * dim_in));
         (assumption || nia));
    apply (matrix_at_frame mem mem' out k weight (dim_in * dim_out));
    (assumption || nia).
Qed.

(** X1. The two weight layouts of [linear] agree: a call with [transposed]
    on a [dim_out x dim_in] weight and a call without it on the [dim_in x
    dim_out] transpose of that weight leave the same output matrix. *)
Theorem linear_layouts_agree (num_tokens dim_in dim_out : Z)
  (input w1 w2 out : Z) (inplace : bool) :
  0 <= num_tokens -> 0 < dim_in -> 0 < dim_out ->
  exists k1 k2 : Kernel T,
    linear [] num_tokens dim_in dim_out input w1 out true inplace = Ok [k1]
    /\ linear [] num_tokens dim_in dim_out input w2 out false inplace = Ok [k2]
    /\ forall mem : device_memory,
       (forall j l, 0 <= j < dim_out -> 0 <= l < dim_in ->
        matrix_at mem w2 dim_out l j = matrix_at mem w1 dim_in j l) ->
       forall i j, 0 <= i < num_tokens -> 0 <= j < dim_out ->
       matrix_at (run [k1] mem) out dim_out i j
       = matrix_at (run [k2] mem) out dim_out i j.
Proof.
  intros Hn Hi Ho.
  exists (linear_gemm num_tokens dim_in dim_out input w1 out true inplace),
         (linear_gemm num_tokens dim_in dim_out input w2 out false inplace).
  split; [exact (linear_Ok [] _ _ _ _ _ _ _ _ Hn Hi Ho)|].
  split; [exact (linear_Ok [] _ _ _ _ _ _ _ _ Hn Hi Ho)|].
  intros mem E i j Hi' Hj'. cbn [run fold_left].
  rewrite !linear_gemm_elt by assumption.
  assert (P : projection mem dim_in dim_out input w1 true i j
              = projection mem dim_in dim_out input w2 false i j).
  { unfold projection, matmul, transpose. apply sum_below_ext.
    intros l Hl. now rewrite E. }
  now rewrite P.
Qed.

(** X2. Accumulation composes: a [linear] call that overwrites the output
    followed by an [inplace] call into the same output leaves the sum of the
    two products, provided the operands of the second call lie apart from
    the output. *)
Theorem linear_accumulates (num_tokens dim_in1 dim_in2 dim_out : Z)
  (in1 w1 in2 w2 out : Z) (tr1 tr2 : bool) :
  0 <= num_tokens -> 0 < dim_in1 -> 0 < dim_in2 -> 0 < dim_out ->
  disjoint (T:=T) out (num_tokens * dim_out) in2 (num_tokens * dim_in2) ->
  disjoint (T:=T) out (num_tokens * dim_out) w2 (dim_in2 * dim_out) ->
  exists ks : Stream T,
    (s <- linear [] num_tokens dim_in1 dim_out in1 w1 out tr1 false ;;
     linear s num_tokens dim_in2 dim_out in2 w2 out tr2 true) = Ok ks
    /\ forall (mem : device_memory) (i j : Z),
       0 <= i < num_tokens -> 0 <= j < dim_out ->
       matrix_at (run ks mem) out dim_out i j
       = add (projection mem dim_in2 dim_out in2 w2 tr2 i j)
             (projection mem dim_in1 dim_out in1 w1 tr1 i j).
Proof.
  intros Hn H1 H2 Ho Di Dw. eexists. split.
  - rewrite linear_Ok by assumption. cbn [bind].
    now rewrite linear_Ok by assumption.
  - intros mem i j Hi Hj. cbn [app run fold_left].
    rewrite linear_gemm_elt by assumption.
    rewrite linear_gemm_elt by assumption.
    f_equal.
    apply (projection_frame mem _ out (num_tokens * dim_out) num_tokens);
      try assumption.
    intros a Ha. now apply linear_gemm_outside.
Qed.

End FurtherLinear.

(** ** [Linear::prefill]: what it writes *)

Section FurtherPrefill.
Context {T : Type} {TT : TypeTraits T}.
Context {TS : SizeLaws T} {TA : ArithLaws T}.

Lemma gemm_params_ok_dims (ta : cublasOperation_t)
  (dim_out num_tokens dim_in lda : Z) :
  gemm_params_ok ta CUBLAS_OP_N dim_out num_tokens dim_in lda dim_in dim_out
  = true ->
  0 <= num_tokens /\ 0 < dim_in /\ 0 < dim_out.
Proof.
  unfold gemm_params_ok. rewrite !andb_true_iff, !Z.leb_le. lia.
Qed.

Lemma linear_Ok_inv (stream ks : Stream T) (num_tokens dim_in dim_out : Z)
  (input weight output : Z) (transposed inplace : bool) :
  linear stream num_tokens dim_in dim_out input weight output transposed inplace
  = Ok ks ->
  0 <= num_tokens /\ 0 < dim_in /\ 0 < dim_out
  /\ ks = stream ++ [linear_gemm num_tokens dim_in dim_out input weight output
                       transposed inplace].
Proof.
  unfold linear, cublasGemmEx, linear_gemm.
  destruct transposed;
    destruct (gemm_params_ok _ _ _ _ _ _ _ _) eqn:G; cbn [cublasCheck];
    try discriminate; intros [= <-];
    apply gemm_params_ok_dims in G; repeat split; tauto.
Qed.

(** A successful [prefill], taken apart. *)
Lemma prefill_Ok_inv (this : Linear.t T) (stream ks : Stream T)
  (num_tokens input tgt : Z) (inplace : bool) :
  Linear.prefill this stream num_tokens input tgt inplace = Ok ks ->
  exists out w,
    (if tgt =? nullptr then Linear.output this else Some tgt) = Some out
    /\ Linear.weight this = Some w
    /\ 0 <= num_tokens /\ 0 < Linear.dim_in this /\ 0 < Linear.dim_out this
    /\ let gemm := linear_gemm num_tokens (Linear.dim_in this)
                     (Linear.dim_out this) input w out
                     (Linear.transposed this) inplace in
       if Linear.has_bias this
       then exists b, Linear.bias this = Some b
            /\ ks = stream ++ [gemm; BatchedAdd num_tokens
                                       (Linear.dim_out this) out b out]
       else ks = stream ++ [gemm].
Proof.
  unfold Linear.prefill. intros E.
  assert (R : exists out,
             (if tgt =? nullptr then Linear.output this else Some tgt) = Some out
             /\ (if tgt =? nullptr then read_ptr (Linear.output this) else Ok tgt)
                = Ok out).
  { destruct (tgt =? nullptr).
    - destruct (Linear.output this) as [o|]; [|discriminate]. now exists o.
    - now exists tgt. }
  destruct R as (out & Et & R). rewrite R in E. cbn [bind] in E.
  destruct (Linear.weight this) as [w|]; [|discriminate]. cbn [bind read_ptr] in E.
  destruct (linear stream num_tokens (Linear.dim_in this) (Linear.dim_out this)
              input w out (Linear.transposed this) inplace) as [s| |] eqn:L;
    try discriminate.
  apply linear_Ok_inv in L. destruct L as (Hn & Hi & Ho & ->).
  cbn [bind] in E. exists out, w. repeat (split; [assumption || reflexivity|]).
  cbn zeta. destruct (Linear.has_bias this).
  - destruct (Linear.bias this) as [b|]; [|discriminate].
    cbn [bind read_ptr] in E. injection E as <-. exists b.
    split; [reflexivity|]. unfold batched_add. now rewrite <- app_assoc.
  - now injection E as <-.
Qed.

Lemma batched_add_outside (mem : device_memory) (num_tokens dim a b c x : Z) :
  x < c \/ c + num_tokens * dim * sizeof (T:=T) <= x ->
  exec_batched_add mem num_tokens dim a b c x = mem x.
Proof.
  intros H. unfold exec_batched_add. now apply store_buf_outside.
Qed.

(** The output of the GEMM followed by the bias add. *)
Lemma gemm_bias_elt (mem : device_memory) (num_tokens dim_in dim_out : Z)
  (input w out b : Z) (transposed inplace : bool) (i j : Z) :
  disjoint (T:=T) out (num_tokens * dim_out) b dim_out ->
  0 <= i < num_tokens -> 0 <= j < dim_out ->
  matrix_at
    (run [linear_gemm num_tokens dim_in dim_out input w out transposed inplace;
          BatchedAdd num_tokens dim_out out b out] mem) out dim_out i j
  = add (if inplace
         then add (projection mem dim_in dim_out input w transposed i j)
                (matrix_at mem out dim_out i j)
         else projection mem dim_in dim_out input w transposed i j)
        (vector_at mem b j).
Proof.
  intros D Hi Hj. cbn [run fold_left].
  set (g := linear_gemm _ _ _ _ _ _ _ _).
  change (exec (exec mem g) (BatchedAdd num_tokens dim_out out b out))
    with (exec_batched_add (exec mem g) num_tokens dim_out out b out).
  rewrite batched_add_elt by assumption.
  unfold g. rewrite linear_gemm_elt by assumption.
  f_equal. unfold vector_at, load. apply linear_gemm_outside.
  now apply elem_addr_outside with (k := dim_out).
Qed.

(** Outside its target buffer a [prefill] changes nothing. *)
Lemma prefill_frame (this : Linear.t T) (stream ks : Stream T)
  (num_tokens input tgt out : Z) (inplace : bool) :
  Linear.prefill this stream num_tokens input tgt inplace = Ok ks ->
  (if tgt =? nullptr then Linear.output this else Some tgt) = Some out ->
  forall (mem : device_memory) (a : Z),
  a < out \/ out + num_tokens * Linear.dim_out this * sizeof (T:=T) <= a ->
  run ks mem a = run stream mem a.
Proof.
  intros E Et mem a Ha. apply prefill_Ok_inv in E.
  destruct E as (out' & w & Et' & Ew & Hn & Hi & Ho & K).
  rewrite Et in Et'. injection Et' as <-. cbn zeta in K.
  destruct (Linear.has_bias this).
  - destruct K as (b & _ & ->). rewrite run_app. cbn [run fold_left].
    change (exec ?m (BatchedAdd ?n ?d ?x ?y ?z))
      with (exec_batched_add m n d x y z).
    rewrite batched_add_outside by assumption.
    now apply linear_gemm_outside.
  - subst ks. rewrite run_app. cbn [run fold_left].
    now apply linear_gemm_outside.
Qed.

(** X3. A [prefill] writes its target buffer and nothing else: whatever it
    enqueues leaves every byte outside [num_tokens * dim_out] elements at the
    target (its [tgt] argument, or the [output] member when [tgt] is null) as
    the work queued earlier left it. With [num_tokens = 0] it changes no
    byte at all. *)
Theorem prefill_writes_target_only (this : Linear.t T) (stream ks : Stream T)
  (num_tokens input tgt out : Z) (inplace : bool) :
  Linear.prefill this stream num_tokens input tgt inplace = Ok ks ->
  (if tgt =? nullptr then Linear.output this else Some tgt) = Some out ->
  (forall (mem : device_memory) (a : Z),
   a < out \/ out + num_tokens * Linear.dim_out this * sizeof (T:=T) <= a ->
   run ks mem a = run stream mem a)
  /\ (num_tokens = 0 ->
      forall (mem : device_memory) (a : Z), run ks mem a = run stream mem a).
Proof.
  intros E Et. split.
  - now apply prefill_frame with (tgt := tgt) (input := input) (inplace := inplace).
  - intros Hz mem a.
    apply (prefill_frame this stream ks num_tokens input tgt out inplace E Et).
    subst num_tokens. lia.
Qed.

(** X4. An accumulating [prefill] of a projection with bias adds both the
    product and the bias to what the output held: [output[i][j]] becomes
    [(product[i][j] + output[i][j]) + bias[j]]. *)
Theorem prefill_accumulates_with_bias (this : Linear.t T) (stream : Stream T)
  (num_tokens input tgt out w b : Z) :
  Linear.has_bias this = true ->
  Linear.weight this = Some w -> Linear.bias this = Some b ->
  (if tgt =? nullptr then Linear.output this else Some tgt) = Some out ->
  0 <= num_tokens -> 0 < Linear.dim_in this -> 0 < Linear.dim_out this ->
  disjoint (T:=T) out (num_tokens * Linear.dim_out this)
    b (Linear.dim_out this) ->
  exists ks : Stream T,
    Linear.prefill this stream num_tokens input tgt true = Ok (stream ++ ks)
    /\ forall (mem : device_memory) (i j : Z),
       0 <= i < num_tokens -> 0 <= j < Linear.dim_out this ->
       matrix_at (run ks mem) out (Linear.dim_out this) i j
       = add (add (projection mem (Linear.dim_in this) (Linear.dim_out this)
                     input w (Linear.transposed this) i j)
                  (matrix_at mem out (Linear.dim_out this) i j))
             (vector_at mem b j).
Proof.
  intros HB Ew Eb Et Hn Hi Ho D. eexists. split.
  - apply (prefill_with_bias this stream num_tokens input tgt out w b true);
      assumption.
  - intros mem i j Hi' Hj'. now rewrite gemm_bias_elt.
Qed.

(** X5. A [prefill] into the buffer that [init_output_ptr] bound stays inside
    the slice of scratch that the call reserved: when the output was bound
    for [max_tokens] tokens at [offset] and the [prefill] runs on at most
    that many tokens without an explicit target, no byte below
    [scratch_base + offset] or from [scratch_base + next_offset] on is
    changed, [next_offset] being the offset [init_output_ptr] returned. *)
Theorem prefill_stays_in_slice (this : Linear.t T) (memory : Memory)
  (stream ks : Stream T) (max_tokens offset num_tokens input : Z)
  (inplace : bool) :
  0 < alignment memory ->
  0 <= max_tokens * Linear.dim_out this <= INT_MAX ->
  num_tokens <= max_tokens ->
  Linear.prefill (fst (Linear.init_output_ptr this memory max_tokens offset))
    stream num_tokens input nullptr inplace = Ok ks ->
  forall (mem : device_memory) (a : Z),
  a < scratch_base memory + offset
  \/ scratch_base memory
     + snd (Linear.init_output_ptr this memory max_tokens offset) <= a ->
  run ks mem a = run stream mem a.
Proof.
  intros Ha Hd Hm E mem a Hout.
  rewrite init_output_ptr_exact in E, Hout by assumption.
  cbn [fst snd] in E, Hout.
  pose proof (prefill_Ok_inv _ _ _ _ _ _ _ E) as I.
  destruct I as (out & w & Et & _ & Hn & _ & Ho & _).
  cbn in Et. injection Et as <-. cbn [Linear.dim_out Linear.set_output] in Ho.
  apply (prefill_frame _ _ _ _ _ _ (scratch_base memory + offset) _ E eq_refl).
  cbn [Linear.dim_out Linear.set_output].
  pose proof (round_up_ge
                (offset + max_tokens * Linear.dim_out this * sizeof (T:=T))
                (alignment memory) Ha).
  pose proof (sizeof_pos (T:=T)).
  destruct Hout as [Hout|Hout]; [now left|right].
  assert (num_tokens * Linear.dim_out this <= max_tokens * Linear.dim_out this)
    by nia.
  assert (num_tokens * Linear.dim_out this * sizeof (T:=T)
          <= max_tokens * Linear.dim_out this * sizeof (T:=T)) by nia.
  lia.
Qed.

End FurtherPrefill.

(** ** [load_to_storage] and [init_weight_ptr]: how they compose *)

Section FurtherLoad.
Context {T : Type} {TT : TypeTraits T}.
Context {TS : SizeLaws T} {TA : ArithLaws T}.

Lemma disjoint_sym (p n q k : Z) :
  disjoint (T:=T) p n q k -> disjoint (T:=T) q k p n.
Proof.
  unfold disjoint. tauto.
Qed.

Lemma store_buf_commute (mem : device_memory) (p n q k : Z) (f g : Z -> T)
  (a : Z) :
  disjoint (T:=T) p n q k ->
  store_buf (store_buf mem p n f) q k g a
  = store_buf (store_buf mem q k g) p n f a.
Proof.
  intros D. unfold store_buf.
  destruct (buf_index q k a) as [j|] eqn:Eq;
    destruct (buf_index p n a) as [i|] eqn:Ep; try reflexivity.
  apply buf_index_Some in Eq. apply buf_index_Some in Ep.
  unfold disjoint, elem_addr in *. pose proof (sizeof_pos (T:=T)). nia.
Qed.

Lemma store_buf_twice (mem : device_memory) (p n : Z) (f g : Z -> T) (a : Z) :
  store_buf (store_buf mem p n f) p n g a = store_buf mem p n g a.
Proof.
  unfold store_buf. now destruct (buf_index p n a).
Qed.

(** A successful load, taken apart: the branch taken and the copy made. *)
Lemma load_to_storage_Ok_inv (this : Linear.t T) (name : string)
  (ptr : host_buffer) (mem mem' : device_memory) :
  Linear.load_to_storage this name ptr mem = Ok mem' ->
  exists p count,
    mem' = cudaMemcpy mem p ptr count
    /\ forall (ptr2 : host_buffer) (mem2 : device_memory),
       Linear.load_to_storage this name ptr2 mem2
       = Ok (cudaMemcpy mem2 p ptr2 count).
Proof.
  unfold Linear.load_to_storage.
  destruct (find name "weight").
  - destruct (Linear.weight this) as [w|]; [|discriminate].
    cbn [bind read_ptr]. intros [= <-]. now eexists _, _.
  - destruct (find name "bias"); [|discriminate].
    destruct (Linear.bias this) as [b|]; [|discriminate].
    cbn [bind read_ptr]. intros [= <-]. now eexists _, _.
Qed.

(** X6. Loading the weight and loading the bias commute: when the two
    buffers lie apart, either order succeeds and leaves the same device
    memory, with the weight buffer holding the weight data and the bias
    buffer the bias data. *)
Theorem load_weight_bias_commute (this : Linear.t T) (nw nb : string)
  (hw hb : host_buffer) (mem : device_memory) (w b : Z) :
  Linear.weight this = Some w -> Linear.bias this = Some b ->
  0 <= Linear.dim_in this * Linear.dim_out this <= INT_MAX ->
  0 <= Linear.dim_out this <= INT_MAX ->
  disjoint (T:=T) w (Linear.dim_in this * Linear.dim_out this)
    b (Linear.dim_out this) ->
  contains nw "weight" -> ~ contains nb "weight" -> contains nb "bias" ->
  exists m1 m12 m2 m21 : device_memory,
    Linear.load_to_storage this nw hw mem = Ok m1
    /\ Linear.load_to_storage this nb hb m1 = Ok m12
    /\ Linear.load_to_storage this nb hb mem = Ok m2
    /\ Linear.load_to_storage this nw hw m2 = Ok m21
    /\ (forall a, m12 a = m21 a)
    /\ (forall i, 0 <= i < Linear.dim_in this * Linear.dim_out this ->
        vector_at m12 w i = hw i)
    /\ (forall j, 0 <= j < Linear.dim_out this -> vector_at m12 b j = hb j).
Proof.
  intros Ew Eb Hw Hb D CW NW CB.
  pose proof (sizeof_pos (T:=T)) as Hs.
  pose proof (sizeof_bound (T:=T)) as Hs'.
  eexists. eexists. eexists. eexists.
  split; [rewrite load_to_storage_weight_branch, Ew by assumption; reflexivity|].
  split; [rewrite load_to_storage_bias_branch, Eb by assumption; reflexivity|].
  split; [rewrite load_to_storage_bias_branch, Eb by assumption; reflexivity|].
  split; [rewrite load_to_storage_weight_branch, Ew by assumption; reflexivity|].
  rewrite bytes_exact by assumption.
  rewrite size_mul_exact by (assumption || (split; assumption)).
  unfold cudaMemcpy. rewrite !Z.div_mul by lia.
  split; [|split].
  - intros a. now apply store_buf_commute.
  - intros i Hi. unfold vector_at.
    rewrite load_store_buf_disjoint
      with (k := Linear.dim_in this * Linear.dim_out this)
      by (assumption || now apply disjoint_sym).
    now apply load_store_buf.
  - intros j Hj. unfold vector_at. now apply load_store_buf.
Qed.

(** X7. The last load wins: a second load under the same name overwrites
    the first, so that loading [h1] and then [h2] leaves the device memory
    that loading [h2] alone leaves. *)
Theorem load_last_wins (this : Linear.t T) (name : string)
  (h1 h2 : host_buffer) (mem m1 : device_memory) :
  Linear.load_to_storage this name h1 mem = Ok m1 ->
  exists m2 m2' : device_memory,
    Linear.load_to_storage this name h2 m1 = Ok m2
    /\ Linear.load_to_storage this name h2 mem = Ok m2'
    /\ forall a, m2 a = m2' a.
Proof.
  intros E. apply load_to_storage_Ok_inv in E.
  destruct E as (p & count & -> & L).
  eexists. eexists. split; [apply L|]. split; [apply L|].
  intros a. unfold cudaMemcpy. apply store_buf_twice.
Qed.

(** X8. From host data to the output: after the weight and the bias have
    been loaded from host buffers [hw] and [hb], a [prefill] of the
    projection computes with that data: [output[i][j]] is the product of the
    input with the host weight, read in the layout of the projection, plus
    [hb[j]]. The buffers involved lie apart. *)
Theorem loaded_data_drives_prefill (this : Linear.t T) (nw nb : string)
  (hw hb : host_buffer) (mem : device_memory)
  (num_tokens input tgt out w b : Z) :
  Linear.has_bias this = true ->
  Linear.weight this = Some w -> Linear.bias this = Some b ->
  (if tgt =? nullptr then Linear.output this else Some tgt) = Some out ->
  0 <= num_tokens -> 0 < Linear.dim_in this -> 0 < Linear.dim_out this ->
  Linear.dim_in this * Linear.dim_out this <= INT_MAX ->
  contains nw "weight" -> ~ contains nb "weight" -> contains nb "bias" ->
  disjoint (T:=T) w (Linear.dim_in this * Linear.dim_out this)
    b (Linear.dim_out this) ->
  disjoint (T:=T) w (Linear.dim_in this * Linear.dim_out this)
    input (num_tokens * Linear.dim_in this) ->
  disjoint (T:=T) b (Linear.dim_out this)
    input (num_tokens * Linear.dim_in this) ->
  disjoint (T:=T) out (num_tokens * Linear.dim_out this)
    b (Linear.dim_out this) ->
  exists (m1 m2 : device_memory) (ks : Stream T),
    Linear.load_to_storage this nw hw mem = Ok m1
    /\ Linear.load_to_storage this nb hb m1 = Ok m2
    /\ Linear.prefill this [] num_tokens input tgt false = Ok ks
    /\ forall i j, 0 <= i < num_tokens -> 0 <= j < Linear.dim_out this ->
       matrix_at (run ks m2) out (Linear.dim_out this) i j
       = add (matmul (Linear.dim_in this)
                (matrix_at mem input (Linear.dim_in this))
                (if Linear.transposed this
                 then transpose (host_matrix hw (Linear.dim_in this))
                 else host_matrix hw (Linear.dim_out this)) i j)
             (hb j).
Proof.
  intros HB Ew Eb Et Hn Hi Ho Hmax CW NW CB Dwb Dwi Dbi Dob.
  pose proof (sizeof_pos (T:=T)) as Hs.
  pose proof (sizeof_bound (T:=T)) as Hs'.
  assert (Hw : 0 <= Linear.dim_in this * Linear.dim_out this <= INT_MAX)
    by (split; [nia | assumption]).
  assert (Hb : 0 <= Linear.dim_out this <= INT_MAX) by (split; [lia | nia]).
  set (m1 := cudaMemcpy mem w hw
               (size_mul (int_mul (Linear.dim_in this) (Linear.dim_out this))
                  sizeof)).
  set (m2 := cudaMemcpy m1 b hb (size_mul (Linear.dim_out this) sizeof)).
  pose proof (weight_copy_copied this hw mem w Hw) as [W1 W2]. fold m1 in W1, W2.
  pose proof (bias_copy_copied this hb m1 b Hb) as [B1 B2]. fold m2 in B1, B2.
  exists m1, m2. eexists.
  split; [rewrite load_to_storage_weight_branch, Ew by assumption; reflexivity|].
  split; [rewrite load_to_storage_bias_branch, Eb by assumption; reflexivity|].
  split.
  { exact (prefill_with_bias this [] num_tokens input tgt out w b false
             HB Ew Eb Et Hn Hi Ho). }
  intros i j Hi' Hj'. cbn [app]. rewrite gemm_bias_elt by assumption.
  f_equal; [|now apply B1].
  unfold projection, matmul, transpose, host_matrix.
  destruct (Linear.transposed this); apply sum_below_ext; intros l Hl; f_equal.
  - rewrite (matrix_at_frame m1 m2 b (Linear.dim_out this) input
               (num_tokens * Linear.dim_in this)) by (assumption || nia).
    apply (matrix_at_frame mem m1 w (Linear.dim_in this * Linear.dim_out this)
             input (num_tokens * Linear.dim_in this)); (assumption || nia).
  - rewrite (matrix_at_frame m1 m2 b (Linear.dim_out this) w
               (Linear.dim_in this * Linear.dim_out this))
      by (assumption || (now apply disjoint_sym) || nia).
    apply W1. nia.
  - rewrite (matrix_at_frame m1 m2 b (Linear.dim_out this) input
               (num_tokens * Linear.dim_in this)) by (assumption || nia).
    apply (matrix_at_frame mem m1 w (Linear.dim_in this * Linear.dim_out this)
             input (num_tokens * Linear.dim_in this)); (assumption || nia).
  - rewrite (matrix_at_frame m1 m2 b (Linear.dim_out this) w
               (Linear.dim_in this * Linear.dim_out this))
      by (assumption || (now apply disjoint_sym) || nia).
    apply W1. nia.
Qed.

End FurtherLoad.

Section FurtherInit.
Context {T : Type} {TT : TypeTraits T} {TS : SizeLaws T}.




(** X10. After [init_weight_ptr] on a projection with bias, the weight and
    the bias can both be loaded, in this order, and neither load disturbs
    the other: the weight buffer holds the weight data, the bias buffer the
    bias data, and no byte outside the part of the model region that
    [init_weight_ptr] took has changed. *)
Theorem init_then_load_both (this this' : Linear.t T)
  (memory memory' : Memory) (nw nb : string) (hw hb : host_buffer)
  (mem : device_memory) :
  Linear.init_weight_ptr this memory = Ok (this', memory') ->
  Linear.has_bias this = true ->
  0 <= Linear.dim_in this * Linear.dim_out this <= INT_MAX ->
  0 <= Linear.dim_out this <= INT_MAX ->
  contains nw "weight" -> ~ contains nb "weight" -> contains nb "bias" ->
  exists (w b : Z) (m1 m2 : device_memory),
    Linear.weight this' = Some w /\ Linear.bias this' = Some b
    /\ Linear.load_to_storage this' nw hw mem = Ok m1
    /\ Linear.load_to_storage this' nb hb m1 = Ok m2
    /\ (forall i, 0 <= i < Linear.dim_in this * Linear.dim_out this ->
        vector_at m2 w i = hw i)
    /\ (forall j, 0 <= j < Linear.dim_out this -> vector_at m2 b j = hb j)
    /\ (forall a,
        a < model_base memory + model_offset memory
        \/ model_base memory + model_offset memory' <= a ->
        m2 a = mem a).
Proof.
  intros E HB Hw Hb CW NW CB.
  pose proof (sizeof_pos (T:=T)) as Hs.
  pose proof (sizeof_bound (T:=T)) as Hs'.
  pose proof (init_weight_ptr_Ok _ _ _ _ E) as I. cbn zeta in I.
  destruct I as (Ei & Eo & _ & Ew & R). rewrite HB in R.
  destruct R as (Eb & Em & _).
  rewrite bytes_exact in Eb, Em by assumption.
  rewrite size_mul_exact in Em by (assumption || (split; assumption)).
  assert (Hw' : 0 <= Linear.dim_in this' * Linear.dim_out this' <= INT_MAX)
    by now rewrite Ei, Eo.
  assert (Hb' : 0 <= Linear.dim_out this' <= INT_MAX) by now rewrite Eo.
  set (w := model_base memory + model_offset memory) in *.
  set (b := w + Linear.dim_in this * Linear.dim_out this * sizeof) in *.
  set (m1 := cudaMemcpy mem w hw
               (size_mul (int_mul (Linear.dim_in this') (Linear.dim_out this'))
                  sizeof)).
  set (m2 := cudaMemcpy m1 b hb (size_mul (Linear.dim_out this') sizeof)).
  pose proof (weight_copy_copied this' hw mem w Hw') as [W1 W2].
  fold m1 in W1, W2.
  pose proof (bias_copy_copied this' hb m1 b Hb') as [B1 B2].
  fold m2 in B1, B2. rewrite Ei, Eo in W1, W2. rewrite Eo in B1, B2.
  exists w, b, m1, m2.
  split; [exact Ew|]. split; [exact Eb|].
  split; [rewrite load_to_storage_weight_branch, Ew by assumption; reflexivity|].
  split; [rewrite load_to_storage_bias_branch, Eb by assumption; reflexivity|].
  split; [|split].
  - intros i Hi. unfold vector_at, load. rewrite B2.
    + now apply W1.
    + left. unfold elem_addr, b. nia.
  - intros j Hj. now apply B1.
  - intros a Ha. rewrite B2, W2; [reflexivity| |]; unfold b in *; nia.
Qed.

(** X11. Nothing works before initialisation. On a projection as the
    constructor leaves it, every pointer member is unbound: a [prefill] is
    undefined whatever its arguments, and so is a load under any name that
    contains "weight" or "bias"; a head as its constructor leaves it cannot
    be prefilled either. *)
Theorem use_before_init_undefined (dim_in dim_out : Z)
  (transposed has_bias : bool) (head_scale : T) :
  (forall (stream : Stream T) (num_tokens input tgt : Z) (inplace : bool),
   Linear.prefill (Linear.new dim_in dim_out transposed has_bias)
     stream num_tokens input tgt inplace = Undefined)
  /\ (forall (name : string) (ptr : host_buffer) (mem : device_memory),
      contains name "weight" \/ contains name "bias" ->
      Linear.load_to_storage (Linear.new dim_in dim_out transposed has_bias)
        name ptr mem = Undefined)
  /\ (forall (stream : Stream T) (num_tokens input tgt : Z) (inplace : bool),
      LMHead.prefill (LMHead.new dim_in dim_out head_scale transposed has_bias)
        stream num_tokens input tgt inplace = Undefined).
Proof.
  split; [|split].
  - intros stream num_tokens input tgt inplace. unfold Linear.prefill.
    cbn [Linear.new Linear.output Linear.weight read_ptr].
    now destruct (tgt =? nullptr).
  - intros name ptr mem H. unfold Linear.load_to_storage.
    cbn [Linear.new Linear.weight Linear.bias read_ptr bind].
    destruct (find name "weight") eqn:Fw; [reflexivity|].
    destruct (find name "bias") eqn:Fb; [reflexivity|].
    apply find_npos_iff in Fw. apply find_npos_iff in Fb. tauto.
  - reflexivity.
Qed.

End FurtherInit.

(** ** [LMHead]: end to end *)

Section FurtherHead.
Context {T : Type} {TT : TypeTraits T}.
Context {TS : SizeLaws T} {TA : ArithLaws T}.

(** [LMHead::prefill] as the scaling followed by the work of the wrapped
    [prefill]. *)
Lemma lmhead_prefill_unfold (this : LMHead.t T) (stream : Stream T)
  (num_tokens input tgt : Z) (inplace : bool) :
  LMHead.prefill this stream num_tokens input tgt inplace
  = (tmp <- read_ptr (LMHead.tmp_hidden_size this) ;;
     ks <- Linear.prefill (LMHead.base this) [] num_tokens tmp tgt inplace ;;
     Ok (stream ++
         ElementwiseScale num_tokens (Linear.dim_in (LMHead.base this)) input
           (LMHead.head_scale this) tmp :: ks)).
Proof.
  unfold LMHead.prefill.
  destruct (read_ptr (LMHead.tmp_hidden_size this)) as [tmp| |];
    cbn [bind]; try reflexivity.
  rewrite prefill_appends. unfold elementwise_scale.
  destruct (Linear.prefill (LMHead.base this) [] num_tokens tmp tgt inplace);
    cbn [bind]; try reflexivity.
  now rewrite <- app_assoc.
Qed.

(** The product of the scaled temporary with a weight that the scaling has
    not touched. *)
Lemma scaled_projection (mem : device_memory)
  (num_tokens dim_in dim_out input tmp w : Z) (scale : T) (transposed : bool)
  (i j : Z) :
  disjoint (T:=T) tmp (num_tokens * dim_in) w (dim_in * dim_out) ->
  0 <= i < num_tokens -> 0 <= j < dim_out ->
  projection (exec_elementwise_scale mem num_tokens dim_in input scale tmp)
    dim_in dim_out tmp w transposed i j
  = matmul dim_in (fun r c => mul scale (matrix_at mem input dim_in r c))
      (if transposed then transpose (matrix_at mem w dim_in)
       else matrix_at mem w dim_out) i j.
Proof.
  intros D Hi Hj. unfold projection, matmul, transpose.
  destruct transposed; apply sum_below_ext; intros l Hl;
    rewrite scale_elt by lia; f_equal;
    apply scale_keeps with (k := dim_in * dim_out); (assumption || nia).
Qed.

(** The output of the head, element by element. *)
Lemma lmhead_prefill_elt (this : LMHead.t T) (stream : Stream T)
  (num_tokens input tgt tmp out w b : Z) (inplace : bool) :
  let lin := LMHead.base this in
  let dim_in := Linear.dim_in lin in
  let dim_out := Linear.dim_out lin in
  LMHead.tmp_hidden_size this = Some tmp ->
  Linear.weight lin = Some w ->
  (if tgt =? nullptr then Linear.output lin else Some tgt) = Some out ->
  (Linear.has_bias lin = true ->
   Linear.bias lin = Some b
   /\ disjoint (T:=T) tmp (num_tokens * dim_in) b dim_out
   /\ disjoint (T:=T) out (num_tokens * dim_out) b dim_out) ->
  0 <= num_tokens -> 0 < dim_in -> 0 < dim_out ->
  disjoint (T:=T) tmp (num_tokens * dim_in) w (dim_in * dim_out) ->
  disjoint (T:=T) tmp (num_tokens * dim_in) out (num_tokens * dim_out) ->
  exists ks : Stream T,
    LMHead.prefill this stream num_tokens input tgt inplace = Ok (stream ++ ks)
    /\ forall (mem : device_memory) (i j : Z),
       0 <= i < num_tokens -> 0 <= j < dim_out ->
       matrix_at (run ks mem) out dim_out i j
       = let product :=
           matmul dim_in
             (fun r c => mul (LMHead.head_scale this)
                           (matrix_at mem input dim_in r c))
             (if Linear.transposed lin then transpose (matrix_at mem w dim_in)
              else matrix_at mem w dim_out) i j in
         let acc :=
           if inplace then add product (matrix_at mem out dim_out i j)
           else product in
         if Linear.has_bias lin then add acc (vector_at mem b j) else acc.
Proof.
  intros lin dim_in dim_out Et Ew Eo HBias Hn Hi Ho Dw Dout.
  rewrite lmhead_prefill_unfold, Et. cbn [bind read_ptr]. fold lin dim_in.
  destruct (Linear.has_bias lin) eqn:HB.
  - destruct (HBias eq_refl) as (Eb & Dtb & Dob).
    rewrite (prefill_with_bias lin [] num_tokens tmp tgt out w b inplace)
      by assumption.
    cbn [bind app]. eexists. split; [reflexivity|].
    intros mem i j Hi' Hj'.
    change (run (?k :: ?ks) mem) with (run ks (exec mem k)).
    fold dim_in dim_out. rewrite gemm_bias_elt by assumption. cbn [exec].
    rewrite scaled_projection by assumption.
    rewrite (scale_keeps mem num_tokens dim_in input (LMHead.head_scale this)
               tmp out (num_tokens * dim_out)) by (assumption || nia).
    cbn zeta. f_equal. unfold vector_at, load. apply scale_outside.
    now apply elem_addr_outside with (k := dim_out).
  - rewrite (prefill_without_bias lin [] num_tokens tmp tgt out w inplace)
      by assumption.
    cbn [bind app]. eexists. split; [reflexivity|].
    intros mem i j Hi' Hj'.
    change (run (?k :: ?ks) mem) with (run ks (exec mem k)).
    cbn [run fold_left]. fold dim_in dim_out.
    rewrite linear_gemm_elt by assumption. cbn [exec].
    rewrite scaled_projection by assumption.
    now rewrite (scale_keeps mem num_tokens dim_in input
                   (LMHead.head_scale this) tmp out (num_tokens * dim_out))
      by (assumption || nia).
Qed.

End FurtherHead.

Section FurtherHeadTheorems.
Context {T : Type} {TT : TypeTraits T}.
Context {TS : SizeLaws T} {TA : ArithLaws T}.

(** X12. The head end to end. With the temporary apart from the weight,
    the bias and the target, [LMHead::prefill] leaves in [output[i][j]] the
    product of the scaled input [head_scale * input] with the weight, in the
    layout of the projection, added to the old output when [inplace], plus
    [bias[j]] when the projection has a bias. *)
Theorem lmhead_prefill_end_to_end (this : LMHead.t T) (stream : Stream T)
  (num_tokens input tgt tmp out w b : Z) (inplace : bool) :
  let lin := LMHead.base this in
  let dim_in := Linear.dim_in lin in
  let dim_out := Linear.dim_out lin in
  LMHead.tmp_hidden_size this = Some tmp ->
  Linear.weight lin = Some w ->
  (if tgt =? nullptr then Linear.output lin else Some tgt) = Some out ->
  (Linear.has_bias lin = true ->
   Linear.bias lin = Some b
   /\ disjoint (T:=T) tmp (num_tokens * dim_in) b dim_out
   /\ disjoint (T:=T) out (num_tokens * dim_out) b dim_out) ->
  0 <= num_tokens -> 0 < dim_in -> 0 < dim_out ->
  disjoint (T:=T) tmp (num_tokens * dim_in) w (dim_in * dim_out) ->
  disjoint (T:=T) tmp (num_tokens * dim_in) out (num_tokens * dim_out) ->
  exists ks : Stream T,
    LMHead.prefill this stream num_tokens input tgt inplace = Ok (stream ++ ks)
    /\ forall (mem : device_memory) (i j : Z),
       0 <= i < num_tokens -> 0 <= j < dim_out ->
       matrix_at (run ks mem) out dim_out i j
       = let product :=
           matmul dim_in
             (fun r c => mul (LMHead.head_scale this)
                           (matrix_at mem input dim_in r c))
             (if Linear.transposed lin then transpose (matrix_at mem w dim_in)
              else matrix_at mem w dim_out) i j in
         let acc :=
           if inplace then add product (matrix_at mem out dim_out i j)
           else product in
         if Linear.has_bias lin then add acc (vector_at mem b j) else acc.
Proof.
  exact (lmhead_prefill_elt this stream num_tokens input tgt tmp out w b inplace).
Qed.

(** X13. A head with [head_scale = 1] (the default of its constructor) is
    the plain projection: [LMHead::prefill] and [Linear::prefill] on the
    same input leave the same output matrix. *)
Theorem lmhead_unit_scale_is_linear (this : LMHead.t T)
  (num_tokens input tgt tmp out w b : Z) (inplace : bool) :
  let lin := LMHead.base this in
  let dim_in := Linear.dim_in lin in
  let dim_out := Linear.dim_out lin in
  LMHead.head_scale this = one ->
  LMHead.tmp_hidden_size this = Some tmp ->
  Linear.weight lin = Some w ->
  (if tgt =? nullptr then Linear.output lin else Some tgt) = Some out ->
  (Linear.has_bias lin = true ->
   Linear.bias lin = Some b
   /\ disjoint (T:=T) tmp (num_tokens * dim_in) b dim_out
   /\ disjoint (T:=T) out (num_tokens * dim_out) b dim_out) ->
  0 <= num_tokens -> 0 < dim_in -> 0 < dim_out ->
  disjoint (T:=T) tmp (num_tokens * dim_in) w (dim_in * dim_out) ->
  disjoint (T:=T) tmp (num_tokens * dim_in) out (num_tokens * dim_out) ->
  exists kh kl : Stream T,
    LMHead.prefill this [] num_tokens input tgt inplace = Ok kh
    /\ Linear.prefill lin [] num_tokens input tgt inplace = Ok kl
    /\ forall (mem : device_memory) (i j : Z),
       0 <= i < num_tokens -> 0 <= j < dim_out ->
       matrix_at (run kh mem) out dim_out i j
       = matrix_at (run kl mem) out dim_out i j.
Proof.
  intros lin dim_in dim_out Es Et Ew Eo HBias Hn Hi Ho Dw Dout.
  destruct (lmhead_prefill_elt this [] num_tokens input tgt tmp out w b inplace
              Et Ew Eo HBias Hn Hi Ho Dw Dout) as (kh & Eh & Hh).
  cbn [app] in Eh. cbn zeta in Hh. exists kh.
  subst lin dim_in dim_out.
  assert (P : forall (mem : device_memory) (i j : Z),
             matmul (Linear.dim_in (LMHead.base this))
               (fun r c =>
                  mul (LMHead.head_scale this)
                    (matrix_at mem input (Linear.dim_in (LMHead.base this)) r c))
               (if Linear.transposed (LMHead.base this)
                then transpose
                       (matrix_at mem w (Linear.dim_in (LMHead.base this)))
                else matrix_at mem w (Linear.dim_out (LMHead.base this))) i j
             = projection mem (Linear.dim_in (LMHead.base this))
                 (Linear.dim_out (LMHead.base this)) input w
                 (Linear.transposed (LMHead.base this)) i j).
  { intros mem i j. unfold projection, matmul. rewrite Es.
    destruct (Linear.transposed (LMHead.base this)); apply sum_below_ext;
      intros l Hl; now rewrite mul_1_l. }
  destruct (Linear.has_bias (LMHead.base this)) eqn:HB.
  - destruct (HBias eq_refl) as (Eb & Dtb & Dob). eexists.
    split; [exact Eh|]. split.
    + exact (prefill_with_bias (LMHead.base this) [] num_tokens input tgt out
               w b inplace HB Ew Eb Eo Hn Hi Ho).
    + intros mem i j Hi' Hj'. rewrite Hh by assumption. cbn [app].
      rewrite gemm_bias_elt by assumption.
      now rewrite P.
  - eexists. split; [exact Eh|]. split.
    + exact (prefill_without_bias (LMHead.base this) [] num_tokens input tgt
               out w inplace HB Ew Eo Hn Hi Ho).
    + intros mem i j Hi' Hj'. rewrite Hh by assumption.
      cbn [app run fold_left].
      rewrite linear_gemm_elt by assumption. now rewrite P.
Qed.

(** X14. A head stays inside its slice of scratch. When
    [LMHead::init_output_ptr] has bound the output and the temporary for
    [max_tokens] tokens at [offset], a [prefill] on at most that many tokens
    without an explicit target changes no byte below [scratch_base + offset]
    or from [scratch_base + next_offset] on, [next_offset] being the offset
    that [init_output_ptr] returned: what is laid out before or after the
    head in scratch is safe from it. *)
Theorem lmhead_prefill_stays_in_slice (this : LMHead.t T) (memory : Memory)
  (stream ks : Stream T) (max_tokens offset num_tokens input : Z)
  (inplace : bool) :
  0 < alignment memory ->
  0 <= max_tokens * Linear.dim_out (LMHead.base this) <= INT_MAX ->
  0 <= max_tokens * Linear.dim_in (LMHead.base this) <= INT_MAX ->
  num_tokens <= max_tokens ->
  LMHead.prefill (fst (LMHead.init_output_ptr this memory max_tokens offset))
    stream num_tokens input nullptr inplace = Ok ks ->
  forall (mem : device_memory) (a : Z),
  a < scratch_base memory + offset
  \/ scratch_base memory
     + snd (LMHead.init_output_ptr this memory max_tokens offset) <= a ->
  run ks mem a = run stream mem a.
Proof.
  intros Ha Hdo Hdi Hm E mem a Hout.
  unfold LMHead.init_output_ptr in E, Hout. cbn zeta in E, Hout.
  rewrite init_output_ptr_exact in E, Hout by assumption.
  cbn [fst snd allocate] in E, Hout.
  rewrite bytes_exact in Hout by assumption.
  set (dout := Linear.dim_out (LMHead.base this)) in *.
  set (din := Linear.dim_in (LMHead.base this)) in *.
  set (next1 := round_up (offset + max_tokens * dout * sizeof) (alignment memory))
    in *.
  rewrite lmhead_prefill_unfold in E.
  cbn [LMHead.tmp_hidden_size LMHead.base LMHead.head_scale read_ptr bind] in E.
  destruct (Linear.prefill
              (Linear.set_output (LMHead.base this) (scratch_base memory + offset))
              [] num_tokens (scratch_base memory + next1) nullptr inplace)
    as [ks'| |] eqn:EL; try discriminate.
  cbn [bind] in E. injection E as <-.
  pose proof (prefill_Ok_inv _ _ _ _ _ _ _ EL) as I.
  destruct I as (out & w & Et & _ & Hn & Hi & Ho & _).
  cbn in Et. injection Et as <-.
  cbn [Linear.dim_in Linear.dim_out Linear.set_output] in Hi, Ho.
  fold din in Hi. fold dout in Ho.
  pose proof (sizeof_pos (T:=T)) as Hs.
  pose proof (round_up_ge (offset + max_tokens * dout * sizeof)
                (alignment memory) Ha) as R1. fold next1 in R1.
  pose proof (round_up_ge (next1 + max_tokens * din * sizeof)
                (alignment memory) Ha) as R2.
  assert (num_tokens * dout * sizeof (T:=T) <= max_tokens * dout * sizeof (T:=T)).
  { assert (num_tokens * dout <= max_tokens * dout) by nia. nia. }
  assert (num_tokens * din * sizeof (T:=T) <= max_tokens * din * sizeof (T:=T)).
  { assert (num_tokens * din <= max_tokens * din) by nia. nia. }
  rewrite run_app.
  change (run (?k :: ?l) ?m) with (run l (exec m k)).
  rewrite (prefill_frame _ [] ks' num_tokens _ nullptr
             (scratch_base memory + offset) inplace EL eq_refl).
  - cbn [run fold_left exec Linear.dim_in Linear.set_output].
    apply scale_outside. fold din. lia.
  - cbn [Linear.dim_out Linear.set_output]. fold dout. lia.
Qed.

End FurtherHeadTheorems.

(** ** The instantiation macros *)

(** X15. Each [MARLIN_INST_CONFIG] line, whatever its arguments, emits 32
    instantiations, no two alike: the two quantization types times the four
    split factors times the four group parameters, all carrying the block
    size, warp tiling and pack size of the line. Lines that differ in an
    argument share no instantiation. *)
Theorem marlin_config_emits_32 (b m n p : Z) :
  List.length (Marlin.MARLIN_INST_CONFIG b m n p) = 32%nat
  /\ NoDup (Marlin.MARLIN_INST_CONFIG b m n p)
  /\ (forall v, In v (Marlin.MARLIN_INST_CONFIG b m n p) ->
      Marlin.block_size v = b /\ Marlin.warp_m v = m /\ Marlin.warp_n v = n
      /\ Marlin.pack_size v = p)
  /\ (forall b' m' n' p' v,
      In v (Marlin.MARLIN_INST_CONFIG b m n p) ->
      In v (Marlin.MARLIN_INST_CONFIG b' m' n' p') ->
      b = b' /\ m = m' /\ n = n' /\ p = p').
Proof.
  split; [reflexivity|]. split; [|split].
  - apply (NoDup_map_inv variant_key).
    apply (NoDup_count_occ' Z.eq_dec). intros k Hk.
    cbn in Hk.
    repeat (destruct Hk as [<-|Hk]; [vm_compute; reflexivity|]).
    destruct Hk.
  - intros v Hv. apply MarlinFacts.in_MARLIN_INST_CONFIG in Hv.
    destruct Hv as (_ & _ & [= -> -> ->] & _ & -> & _). tauto.
  - intros b' m' n' p' v Hv Hv'.
    apply MarlinFacts.in_MARLIN_INST_CONFIG in Hv.
    apply MarlinFacts.in_MARLIN_INST_CONFIG in Hv'.
    destruct Hv as (_ & _ & [= <- <- <-] & _ & <- & _).
    destruct Hv' as (_ & _ & [= <- <- <-] & _ & <- & _). tauto.
Qed.

(** X16. The family is the same for both quantization types: an
    instantiation is emitted if and only if the one that differs from it in
    the quantization type alone is emitted too, for every
    [MARLIN_INST_QTYPE] expansion and so for the whole file. *)
Theorem marlin_qtypes_symmetric (v : Marlin.Instantiation) :
  (forall d b m n p,
   In v (Marlin.MARLIN_INST_QTYPE d b m n p)
   <-> In (swap_qtype v) (Marlin.MARLIN_INST_QTYPE d b m n p))
  /\ (forall e : bool,
      In v (Marlin.instantiations e)
      <-> In (swap_qtype v) (Marlin.instantiations e)).
Proof.
  assert (Q : In (Marlin.qtype (swap_qtype v)) marlin_qtypes
              <-> In (Marlin.qtype v) marlin_qtypes).
  { unfold swap_qtype, marlin_qtypes. cbn.
    destruct (Marlin.qtype v); intuition congruence. }
  split.
  - intros d b m n p. rewrite !MarlinFacts.in_MARLIN_INST_QTYPE.
    rewrite Q. reflexivity.
  - intros [|]; [|reflexivity].
    rewrite !MarlinFacts.in_instantiations. unfold in_cross_product.
    rewrite Q. reflexivity.
Qed.

(** ** Build order *)



(** ** The further properties on concrete inputs *)

(** The two layouts on a 1 x 2 input and weights at 100 and 150. *)
Lemma linear_layouts_agree_witness :
  exists k1 k2 : Kernel Z,
    linear [] 1 2 3 0 100 300 true false = Ok [k1]
    /\ linear [] 1 2 3 0 150 300 false false = Ok [k2]
    /\ forall mem : device_memory,
       (forall j l, 0 <= j < 3 -> 0 <= l < 2 ->
        matrix_at mem 150 3 l j = matrix_at mem 100 2 j l) ->
       forall i j, 0 <= i < 1 -> 0 <= j < 3 ->
       matrix_at (run [k1] mem) 300 3 i j = matrix_at (run [k2] mem) 300 3 i j.
Proof.
  exact (linear_layouts_agree (T:=Z) 1 2 3 0 100 150 300 false
           ltac:(lia) ltac:(lia) ltac:(lia)).
Defined.

(** Two projections of one token accumulated into the output at 300. *)
Lemma linear_accumulates_witness :
  exists ks : Stream Z,
    (s <- linear [] 1 2 3 0 100 300 true false ;;
     linear s 1 2 3 50 150 300 false true) = Ok ks
    /\ forall (mem : device_memory) (i j : Z),
       0 <= i < 1 -> 0 <= j < 3 ->
       matrix_at (run ks mem) 300 3 i j
       = add (projection mem 2 3 50 150 false i j)
             (projection mem 2 3 0 100 true i j).
Proof.
  apply (linear_accumulates (T:=Z) 1 2 2 3 0 100 50 150 300 true false);
    try lia; right; arith.
Defined.

(** [prefill] of [ex_linear] leaves the weight cell at 100 alone. *)
Lemma prefill_writes_target_only_witness :
  run [linear_gemm 1 2 3 0 100 300 true false; BatchedAdd 1 3 300 200 300]
    ex_ramp 100
  = run [] ex_ramp 100.
Proof.
  apply (proj1 (prefill_writes_target_only (T:=Z) ex_linear [] _ 1 0 nullptr
                  300 false eq_refl eq_refl)).
  left. lia.
Defined.

(** An accumulating [prefill] of [ex_linear] on one token. *)
Lemma prefill_accumulates_with_bias_witness :
  exists ks : Stream Z,
    Linear.prefill ex_linear [] 1 0 nullptr true = Ok ([] ++ ks)
    /\ forall (mem : device_memory) (i j : Z),
       0 <= i < 1 -> 0 <= j < 3 ->
       matrix_at (run ks mem) 300 3 i j
       = add (add (projection mem 2 3 0 100 true i j) (matrix_at mem 300 3 i j))
             (vector_at mem 200 j).
Proof.
  apply (prefill_accumulates_with_bias (T:=Z) ex_linear [] 1 0 nullptr
           300 100 200); try reflexivity; try arith.
  right. arith.
Defined.

(** The output of [ex_linear] bound for four tokens at offset 0 of
    [ex_memory], prefilled with two: the cell at the next offset, 256, is
    not written. *)
Lemma prefill_stays_in_slice_witness :
  run [linear_gemm 2 2 3 0 100 1048576 true false;
       BatchedAdd 2 3 1048576 200 1048576] ex_ramp (1048576 + 256)
  = run [] ex_ramp (1048576 + 256).
Proof.
  assert (E : Linear.prefill (fst (Linear.init_output_ptr ex_linear ex_memory 4 0))
                [] 2 0 nullptr false
              = Ok [linear_gemm 2 2 3 0 100 1048576 true false;
                    BatchedAdd 2 3 1048576 200 1048576])
    by (vm_compute; reflexivity).
  apply (prefill_stays_in_slice (T:=Z) ex_linear ex_memory [] _ 4 0 2 0 false
           ltac:(arith) ltac:(arith) ltac:(lia) E).
  right. vm_compute. discriminate.
Defined.

(** The weight and the bias of [ex_linear], loaded in both orders. *)
Lemma load_weight_bias_commute_witness :
  exists m1 m12 m2 m21 : device_memory,
    Linear.load_to_storage ex_linear "fc.weight" ex_host ex_mem = Ok m1
    /\ Linear.load_to_storage ex_linear "fc.bias" ex_host m1 = Ok m12
    /\ Linear.load_to_storage ex_linear "fc.bias" ex_host ex_mem = Ok m2
    /\ Linear.load_to_storage ex_linear "fc.weight" ex_host m2 = Ok m21
    /\ (forall a, m12 a = m21 a)
    /\ (forall i, 0 <= i < 2 * 3 -> vector_at m12 100 i = ex_host i)
    /\ (forall j, 0 <= j < 3 -> vector_at m12 200 j = ex_host j).
Proof.
  apply (load_weight_bias_commute (T:=Z) ex_linear "fc.weight" "fc.bias"
           ex_host ex_host ex_mem 100 200); try reflexivity; try arith.
  - left. arith.
  - exists "fc."%string, ""%string. reflexivity.
  - apply find_npos_iff. vm_compute. reflexivity.
  - exists "fc."%string, ""%string. reflexivity.
Defined.

(** The weight of [ex_linear] loaded twice. *)
Lemma load_last_wins_witness :
  exists m2 m2' : device_memory,
    Linear.load_to_storage ex_linear "fc.weight" ex_ramp
      (cudaMemcpy ex_mem 100 ex_host 12) = Ok m2
    /\ Linear.load_to_storage ex_linear "fc.weight" ex_ramp ex_mem = Ok m2'
    /\ forall a, m2 a = m2' a.
Proof.
  exact (load_last_wins (T:=Z) ex_linear "fc.weight" ex_host ex_ramp ex_mem
           (cudaMemcpy ex_mem 100 ex_host 12) eq_refl).
Defined.

(** [ex_linear] loaded from host buffers and prefilled on one token. *)
Lemma loaded_data_drives_prefill_witness :
  exists (m1 m2 : device_memory) (ks : Stream Z),
    Linear.load_to_storage ex_linear "fc.weight" ex_host ex_ramp = Ok m1
    /\ Linear.load_to_storage ex_linear "fc.bias" ex_host m1 = Ok m2
    /\ Linear.prefill ex_linear [] 1 0 nullptr false = Ok ks
    /\ forall i j, 0 <= i < 1 -> 0 <= j < 3 ->
       matrix_at (run ks m2) 300 3 i j
       = add (matmul 2 (matrix_at ex_ramp 0 2)
                (transpose (host_matrix ex_host 2)) i j)
             (ex_host j).
Proof.
  apply (loaded_data_drives_prefill (T:=Z) ex_linear "fc.weight" "fc.bias"
           ex_host ex_host ex_ramp 1 0 nullptr 300 100 200);
    try reflexivity; try arith.
  - exists "fc."%string, ""%string. reflexivity.
  - apply find_npos_iff. vm_compute. reflexivity.
  - exists "fc."%string, ""%string. reflexivity.
  - left. arith.
  - right. arith.
  - right. arith.
  - right. arith.
Defined.

(** A projection with bias initialised in [ex_memory], then loaded. *)
Lemma init_then_load_both_witness :
  exists (w b : Z) (m1 m2 : device_memory),
    Linear.weight ex_initialised = Some w /\ Linear.bias ex_initialised = Some b
    /\ Linear.load_to_storage ex_initialised "fc.weight" ex_host ex_mem = Ok m1
    /\ Linear.load_to_storage ex_initialised "fc.bias" ex_ramp m1 = Ok m2
    /\ (forall i, 0 <= i < 2 * 3 -> vector_at m2 w i = ex_host i)
    /\ (forall j, 0 <= j < 3 -> vector_at m2 b j = ex_ramp j)
    /\ (forall a, a < 4096 + 0 \/ 4096 + 18 <= a -> m2 a = ex_mem a).
Proof.
  apply (init_then_load_both (T:=Z) (Linear.new 2 3 true true) ex_initialised
           ex_memory
           {| model_base := 4096; model_offset := 18; model_capacity := 65536;
              scratch_base := 1048576; alignment := 256 |}
           "fc.weight" "fc.bias" ex_host ex_ramp ex_mem);
    try reflexivity; try arith.
  - exists "fc."%string, ""%string. reflexivity.
  - apply find_npos_iff. vm_compute. reflexivity.
  - exists "fc."%string, ""%string. reflexivity.
Defined.

(** [ex_head] on one token. *)
Lemma lmhead_prefill_end_to_end_witness :
  exists ks : Stream Z,
    LMHead.prefill ex_head [] 1 0 nullptr true = Ok ([] ++ ks)
    /\ forall (mem : device_memory) (i j : Z),
       0 <= i < 1 -> 0 <= j < 3 ->
       matrix_at (run ks mem) 300 3 i j
       = add (add (matmul 2 (fun r c => mul 3 (matrix_at mem 0 2 r c))
                     (transpose (matrix_at mem 100 2)) i j)
                  (matrix_at mem 300 3 i j))
             (vector_at mem 200 j).
Proof.
  apply (lmhead_prefill_end_to_end (T:=Z) ex_head [] 1 0 nullptr 400 300 100
           200 true); try reflexivity; try arith.
  - intros _. split; [reflexivity|]. split; right; arith.
  - right. arith.
  - right. arith.
Defined.

(** [ex_head_unit] against [ex_linear] on one token. *)
Lemma lmhead_unit_scale_is_linear_witness :
  exists kh kl : Stream Z,
    LMHead.prefill ex_head_unit [] 1 0 nullptr false = Ok kh
    /\ Linear.prefill ex_linear [] 1 0 nullptr false = Ok kl
    /\ forall (mem : device_memory) (i j : Z),
       0 <= i < 1 -> 0 <= j < 3 ->
       matrix_at (run kh mem) 300 3 i j = matrix_at (run kl mem) 300 3 i j.
Proof.
  apply (lmhead_unit_scale_is_linear (T:=Z) ex_head_unit 1 0 nullptr 400 300
           100 200 false); try reflexivity; try arith.
  - intros _. split; [reflexivity|]. split; right; arith.
  - right. arith.
  - right. arith.
Defined.

(** [ex_head] laid out for four tokens at offset 0 of [ex_memory] and
    prefilled with two: the cell at the next offset, 512, is not written. *)
Lemma lmhead_prefill_stays_in_slice_witness :
  run [ElementwiseScale 2 2 0 3 1048832;
       linear_gemm 2 2 3 1048832 100 1048576 true false;
       BatchedAdd 2 3 1048576 200 1048576] ex_ramp (1048576 + 512)
  = run [] ex_ramp (1048576 + 512).
Proof.
  assert (E : LMHead.prefill (fst (LMHead.init_output_ptr ex_head ex_memory 4 0))
                [] 2 0 nullptr false
              = Ok [ElementwiseScale 2 2 0 3 1048832;
                    linear_gemm 2 2 3 1048832 100 1048576 true false;
                    BatchedAdd 2 3 1048576 200 1048576])
    by (vm_compute; reflexivity).
  apply (lmhead_prefill_stays_in_slice (T:=Z) ex_head ex_memory [] _ 4 0 2 0
           false ltac:(arith) ltac:(arith) ltac:(arith) ltac:(lia) E).
  right. vm_compute. discriminate.
Defined.
